(** * Document intelligence pipeline: segmentation, ranking, refinement

    A shallow embedding of [src/main.py] (class [DocumentIntelligenceSystem])
    and the properties of its three stages.

    Characters are [ascii] values read as the code points 0..255; a Python
    [str] is a [list ascii].  Scores are IEEE binary64 numbers, as Python
    floats are.  The collaborators that are not code of the repository
    (scikit-learn's vectorizer, pdfplumber, the file system, the [repr] of
    Python values) are the fields of the class [Collaborators]. *)

From Stdlib Require Import String Ascii List Arith Lia Bool DecimalString.
From Stdlib Require Import ZArith Floats Permutation Sorted.
Import ListNotations.
Local Open Scope list_scope.

Set Warnings "-inexact-float,-comment-terminator-in-string,-register-all".

(** ** Python strings *)

Definition pystr := list ascii.

(** A literal. *)
Definition py (s : string) : pystr := list_ascii_of_string s.
Arguments py s%_string.

Module PyStr.

Definition code (c : ascii) : nat := nat_of_ascii c.

Definition between (lo hi : nat) (c : ascii) : bool :=
  (lo <=? code c) && (code c <=? hi).

(** [str.isspace] on the code points below 256; the class [\s] of [re]
    is the same set. *)
Definition isspace (c : ascii) : bool :=
  between 9 13 c || between 28 32 c || (code c =? 133) || (code c =? 160).

(** [str.lower] on one character: A-Z, and the capital letters of the
    range 0xC0..0xDE except the multiplication sign 0xD7. *)
Definition lower_char (c : ascii) : ascii :=
  if between 65 90 c || (between 192 222 c && negb (code c =? 215))
  then ascii_of_nat (code c + 32)
  else c.

Definition lower (s : pystr) : pystr := map lower_char s.

Fixpoint lstrip (s : pystr) : pystr :=
  match s with
  | c :: s' => if isspace c then lstrip s' else s
  | [] => []
  end.

Definition rstrip (s : pystr) : pystr := rev (lstrip (rev s)).

(** [s.strip()] *)
Definition strip (s : pystr) : pystr := rstrip (lstrip s).

Fixpoint startswith (p s : pystr) : bool :=
  match p, s with
  | [], _ => true
  | a :: p', b :: s' => Ascii.eqb a b && startswith p' s'
  | _ :: _, [] => false
  end.

(** [sub in s] *)
Fixpoint contains (sub s : pystr) : bool :=
  startswith sub s ||
  match s with
  | [] => false
  | _ :: s' => contains sub s'
  end.

(** [s.endswith(p)] *)
Definition endswith (p s : pystr) : bool := startswith (rev p) (rev s).

(** [s[a:b]] for [0 <= a], [0 <= b]: indices beyond the end are clipped. *)
Definition slice (s : pystr) (a b : nat) : pystr := firstn (b - a) (skipn a s).

(** [sep.join(parts)] *)
Fixpoint join (sep : pystr) (parts : list pystr) : pystr :=
  match parts with
  | [] => []
  | [p] => p
  | p :: ps => p ++ sep ++ join sep ps
  end.

(** [s.split(sep)] for a non-empty [sep]: the occurrences of [sep] are
    taken from the left and do not overlap.  [cur] is the current piece,
    reversed; [skip] counts the characters of an occurrence still to be
    passed. *)
Fixpoint split_from (sep s cur : pystr) (skip : nat) : list pystr :=
  match s with
  | [] => [rev cur]
  | c :: s' =>
      match skip with
      | S k => split_from sep s' cur k
      | O =>
          if startswith sep s
          then rev cur :: split_from sep s' [] (length sep - 1)
          else split_from sep s' (c :: cur) 0
      end
  end.

Definition split (sep s : pystr) : list pystr := split_from sep s [] 0.

End PyStr.

(** ** Regular expressions

    The fragment of Python's [re] the program uses, with the semantics of a
    backtracking matcher: [run r st] lists the states in which a match of
    [r] started in [st] can end, in the order the matcher tries them, so
    that the match [re] reports is the head of the list.  [re.IGNORECASE]
    is carried by the character classes ([ci], [letter]); [Bol] is [^]
    under [re.MULTILINE]. *)

Module Re.

Import PyStr.

Inductive regex : Type :=
| Eps
| Bol
| Wordb
| Cls (p : ascii -> bool)
| Cat (r1 r2 : regex)
| Alt (r1 r2 : regex)
| Rep (p : ascii -> bool) (lo : nat) (hi : option nat)
| Opt (r : regex)
| Grp (r : regex).

(** Matcher state: the character before the position, the text from the
    position on, and what group 1 captured so far. *)
Record mstate : Type := MState {
  prev : option ascii;
  rest : pystr;
  grp : option pystr
}.

Definition newline : ascii := ascii_of_nat 10.

Definition is_newline (c : ascii) : bool := Ascii.eqb c newline.

(** The class [\w] on the code points below 256. *)
Definition is_word (c : ascii) : bool :=
  between 48 57 c || between 65 90 c || (code c =? 95) || between 97 122 c
  || (code c =? 170) || between 178 179 c || (code c =? 181)
  || between 185 186 c || between 188 190 c
  || between 192 214 c || between 216 246 c || between 248 255 c.

Definition word_before (o : option ascii) : bool :=
  match o with Some c => is_word c | None => false end.

(** The longest run of characters of the class [p] at the head of [s],
    at most [hi] long when [hi] is given. *)
Fixpoint run_length (p : ascii -> bool) (hi : option nat) (s : pystr) : nat :=
  match hi with
  | Some O => 0
  | _ =>
      match s with
      | c :: s' =>
          if p c
          then S (run_length p (option_map Nat.pred hi) s')
          else 0
      | [] => 0
      end
  end.

(** The state after [k] more characters. *)
Fixpoint advance (k : nat) (st : mstate) : mstate :=
  match k with
  | O => st
  | S k' =>
      match rest st with
      | c :: s' => advance k' (MState (Some c) s' (grp st))
      | [] => st
      end
  end.

(** [lo + n, lo + n - 1, ..., lo]: the lengths a greedy repetition tries. *)
Fixpoint countdown (lo n : nat) : list nat :=
  match n with
  | O => [lo]
  | S n' => (lo + n) :: countdown lo n'
  end.

Fixpoint run (r : regex) (st : mstate) : list mstate :=
  match r with
  | Eps => [st]
  | Bol =>
      match prev st with
      | None => [st]
      | Some c => if is_newline c then [st] else []
      end
  | Wordb =>
      if xorb (word_before (prev st)) (word_before (hd_error (rest st)))
      then [st] else []
  | Cls p =>
      match rest st with
      | c :: s' => if p c then [MState (Some c) s' (grp st)] else []
      | [] => []
      end
  | Cat r1 r2 => flat_map (run r2) (run r1 st)
  | Alt r1 r2 => run r1 st ++ run r2 st
  | Rep p lo hi =>
      let n := run_length p hi (rest st) in
      if n <? lo then []
      else map (fun k => advance k st) (countdown lo (n - lo))
  | Opt r1 => run r1 st ++ [st]
  | Grp r1 =>
      map (fun st' =>
             MState (prev st') (rest st')
                    (Some (firstn (length (rest st) - length (rest st'))
                                  (rest st))))
          (run r1 st)
  end.

(** A match object: [m.start()], [m.group(0)] and [m.group(1)]. *)
Record rmatch : Type := RMatch {
  m_start : nat;
  m_text : pystr;
  m_group1 : option pystr
}.

(** The match [re] finds when it tries the pattern at position [pos],
    where [s] is the text from [pos] on. *)
Definition match_here (r : regex) (before : option ascii) (pos : nat)
           (s : pystr) : option rmatch :=
  match run r (MState before s None) with
  | st :: _ => Some (RMatch pos (firstn (length s - length (rest st)) s) (grp st))
  | [] => None
  end.

(** One left-to-right pass over the text: a [Hit] for every match found
    and a [Gap] for every character outside the matches. *)
Inductive token : Type :=
| Gap (c : ascii)
| Hit (m : rmatch).

(** [skip] counts the characters of the last match still to be passed.
    After an empty match the scan moves on by one character; no pattern of
    the program has an empty match. *)
Fixpoint scan (r : regex) (before : option ascii) (pos : nat) (s : pystr)
         (skip : nat) {struct s} : list token :=
  match skip with
  | S k =>
      match s with
      | [] => []
      | c :: s' => scan r (Some c) (S pos) s' k
      end
  | O =>
      match match_here r before pos s with
      | Some m =>
          Hit m ::
          match s with
          | [] => []
          | c :: s' =>
              match length (m_text m) with
              | O => Gap c :: scan r (Some c) (S pos) s' 0
              | S k => scan r (Some c) (S pos) s' k
              end
          end
      | None =>
          match s with
          | [] => []
          | c :: s' => Gap c :: scan r (Some c) (S pos) s' 0
          end
      end
  end.

Definition tokens (r : regex) (s : pystr) : list token := scan r None 0 s 0.

Fixpoint hits (ts : list token) : list rmatch :=
  match ts with
  | [] => []
  | Hit m :: ts' => m :: hits ts'
  | Gap _ :: ts' => hits ts'
  end.

(** [list(re.finditer(r, s))] *)
Definition finditer (r : regex) (s : pystr) : list rmatch := hits (tokens r s).

(** [re.findall(r, s)] for a pattern without groups. *)
Definition findall (r : regex) (s : pystr) : list pystr :=
  map m_text (finditer r s).

(** [re.sub(r, repl, s)] for a replacement without group references. *)
Definition sub (r : regex) (repl s : pystr) : pystr :=
  flat_map (fun t => match t with Gap c => [c] | Hit _ => repl end)
           (tokens r s).

Fixpoint pieces (ts : list token) (cur : pystr) : list pystr :=
  match ts with
  | [] => [rev cur]
  | Gap c :: ts' => pieces ts' (c :: cur)
  | Hit _ :: ts' => rev cur :: pieces ts' []
  end.

(** [re.split(r, s)] for a pattern without groups. *)
Definition split (r : regex) (s : pystr) : list pystr := pieces (tokens r s) [].

(** *** Pattern syntax *)

(** A literal character under [re.IGNORECASE]. *)
Definition ci (c x : ascii) : bool := Ascii.eqb (lower_char x) (lower_char c).

(** A literal string under [re.IGNORECASE]. *)
Fixpoint lit (s : pystr) : regex :=
  match s with
  | [] => Eps
  | [c] => Cls (ci c)
  | c :: s' => Cat (Cls (ci c)) (lit s')
  end.

(** [[A-Z]] under [re.IGNORECASE]. *)
Definition letter (c : ascii) : bool := between 65 90 c || between 97 122 c.

(** [\d] *)
Definition digit (c : ascii) : bool := between 48 57 c.

Definition one_of (cs : pystr) (c : ascii) : bool :=
  existsb (Ascii.eqb c) cs.

Definition none_of (cs : pystr) (c : ascii) : bool := negb (one_of cs c).

Definition star (p : ascii -> bool) : regex := Rep p 0 None.
Definition plus (p : ascii -> bool) : regex := Rep p 1 None.

Fixpoint alts (rs : list regex) : regex :=
  match rs with
  | [] => Cls (fun _ => false)
  | [r] => r
  | r :: rs' => Alt r (alts rs')
  end.

Fixpoint cats (rs : list regex) : regex :=
  match rs with
  | [] => Eps
  | [r] => r
  | r :: rs' => Cat r (cats rs')
  end.

End Re.

Import PyStr.

(** ** Data model *)

(** The dict that stands for a section.  The two ranking fields are absent
    until [rank_sections_by_relevance] has set them. *)
Record section : Type := mkSection {
  document : pystr;
  page_number : nat;
  section_title : pystr;
  text : pystr;
  relevance_score : option float;
  importance_rank : option nat
}.

(** The persona dict; each key may be absent ([persona.get(key, default)]). *)
Record persona_dict : Type := mkPersona {
  role : option pystr;
  expertise : option pystr;
  focus_areas : option (list pystr)
}.

(** [str(n)] for a non-negative int. *)
Definition str_of_nat (n : nat) : pystr :=
  py (NilEmpty.string_of_uint (Nat.to_uint n)).

Fixpoint enumerate_from {A : Type} (i : nat) (l : list A) : list (nat * A) :=
  match l with
  | [] => []
  | x :: l' => (i, x) :: enumerate_from (S i) l'
  end.

(** [enumerate(l)] *)
Definition enumerate {A : Type} (l : list A) : list (nat * A) :=
  enumerate_from 0 l.

(** ** A stable sort

    [list.sort] keeps the elements whose keys compare equal in their
    original order.  [before y x] says that [y] must come strictly before
    [x]; an element passes, on its way in, exactly the elements that must
    come before it. *)

Section StableSort.

Variable A : Type.
Variable before : A -> A -> bool.

Fixpoint insert (x : A) (l : list A) : list A :=
  match l with
  | [] => [x]
  | y :: l' => if before y x then y :: insert x l' else x :: l
  end.

Definition stable_sort (l : list A) : list A := fold_right insert [] l.

End StableSort.

Arguments insert {A} before x l.
Arguments stable_sort {A} before l.

(** ** Section segmenter *)

Module Segmenter.

Import Re.

(** "(?:^|\n)" *)
Definition line_start : regex := Alt Bol (Cls is_newline).

(** "(?:^|\n)([A-Z][A-Z\s]{2,50})\n" *)
Definition caps_header : regex :=
  cats [line_start;
        Grp (Cat (Cls letter)
                 (Rep (fun c => letter c || isspace c) 2 (Some 50)));
        Cls is_newline].

(** "(?:^|\n)(\d+\.?\s+[A-Z][^.!?]*)\n" *)
Definition numbered_header : regex :=
  cats [line_start;
        Grp (cats [plus digit; Opt (Cls (ci "."));
                   plus isspace; Cls letter; star (none_of (py ".!?"))]);
        Cls is_newline].

(** "(?:^|\n)(Abstract|Introduction|Methods?|Results?|Discussion|Conclusion|References|Background|Related Work|Experiments?)[.\s]*\n" *)
Definition keyword_header : regex :=
  cats [line_start;
        Grp (alts [lit (py "Abstract");
                   lit (py "Introduction");
                   Cat (lit (py "Method")) (Opt (Cls (ci "s")));
                   Cat (lit (py "Result")) (Opt (Cls (ci "s")));
                   lit (py "Discussion");
                   lit (py "Conclusion");
                   lit (py "References");
                   lit (py "Background");
                   lit (py "Related Work");
                   Cat (lit (py "Experiment")) (Opt (Cls (ci "s")))]);
        star (fun c => Ascii.eqb c "." || isspace c);
        Cls is_newline].

(** "(?:^|\n)([IVX]+\.\s+[A-Z][^.!?]*)\n" *)
Definition roman_header : regex :=
  cats [line_start;
        Grp (cats [plus (fun c => one_of (py "ivx") (lower_char c));
                   Cls (ci "."); plus isspace; Cls letter;
                   star (none_of (py ".!?"))]);
        Cls is_newline].

Definition section_patterns : list regex :=
  [caps_header; numbered_header; keyword_header; roman_header].

(** [match.group(1).strip()]; group 1 lies on every path through each of
    the four patterns. *)
Definition group1_stripped (m : rmatch) : pystr :=
  match m_group1 m with
  | Some g => strip g
  | None => []
  end.

(** Lines 57-61: the matches of all patterns, pattern by pattern. *)
Definition find_boundaries (t : pystr) : list (nat * pystr) :=
  flat_map (fun pattern =>
              map (fun m => (m_start m, group1_stripped m))
                  (finditer pattern t))
           section_patterns.

(** [boundaries.sort(key=lambda x: x[0])] *)
Definition sort_boundaries (bs : list (nat * pystr)) : list (nat * pystr) :=
  stable_sort (fun y x => fst y <? fst x) bs.

(** [re.sub("\s+", " ", text).strip()] *)
Definition normalize (t : pystr) : pystr :=
  strip (sub (plus isspace) (py " ") t).

Definition placeholder (page_num : nat) (title body : pystr) : section :=
  mkSection (py "placeholder") page_num title body None None.

(** [_split_by_paragraphs] *)
Definition _split_by_paragraphs (t : pystr) (page_num : nat) : list section :=
  let paragraphs :=
    map strip
        (filter (fun p => 100 <? length (strip p))
                (PyStr.split [newline; newline] t)) in
  map (fun '(i, para) =>
         placeholder page_num (py "Section " ++ str_of_nat (i + 1)) para)
      (enumerate (firstn 5 paragraphs)).

(** The variables of the loop of lines 71-87. *)
Record walk_state : Type := mkWalk {
  current_section : pystr;
  start_pos : nat;
  sections : list section
}.

(** One iteration of the loop over the boundaries. *)
Definition walk_step (t : pystr) (page_num : nat) (st : walk_state)
           (b : nat * pystr) : walk_state :=
  let (pos, title) := b in
  let section_text := strip (slice t (start_pos st) pos) in
  mkWalk title pos
         (if (start_pos st <? pos) && (100 <? length section_text)
          then sections st ++
               [placeholder page_num (current_section st) section_text]
          else sections st).

(** Lines 89-97: the final section, from the state the loop ends in. *)
Definition finish (t : pystr) (page_num : nat) (st : walk_state) : list section :=
  let final_text := strip (skipn (start_pos st) t) in
  if 100 <? length final_text
  then sections st ++ [placeholder page_num (current_section st) final_text]
  else sections st.

(** Lines 70-97: the loop and the final section. *)
Definition boundary_sections (t : pystr) (page_num : nat)
           (boundaries : list (nat * pystr)) : list section :=
  finish t page_num
         (fold_left (walk_step t page_num) boundaries
                    (mkWalk (py "Introduction") 0 [])).

(** [_split_into_sections] *)
Definition _split_into_sections (raw : pystr) (page_num : nat) : list section :=
  let t := normalize raw in
  let boundaries := sort_boundaries (find_boundaries t) in
  match boundaries with
  | [] => _split_by_paragraphs t page_num
  | _ :: _ =>
      match boundary_sections t page_num boundaries with
      | [] => _split_by_paragraphs t page_num
      | secs => secs
      end
  end.

End Segmenter.

(** ** Collaborators

    What the program calls but does not define. *)

(** A value read by [json.load]; the keys of an object are distinct. *)
Inductive json : Type :=
| JNull
| JBool (b : bool)
| JInt (n : Z)
| JFloat (x : float)
| JStr (s : pystr)
| JArr (items : list json)
| JObj (fields : list (pystr * json)).

Class Collaborators : Type := {
  (** Lines 142-149: [fit_transform] on the section texts followed by the
      query, then the cosine similarity of the last row with each of the
      others; [None] when scikit-learn raises. *)
  tfidf_similarities : list pystr -> option (list float);
  (** The texts [page.extract_text()] returns for the pages of a PDF that
      pdfplumber reads before it raises, if it does; [None] is a page
      without text. *)
  pdf_pages : pystr -> list (option pystr);
  (** [os.path.exists] *)
  path_exists : pystr -> bool;
  (** [str(v)] for a value that is not a [str]. *)
  py_repr : json -> pystr
}.

(** [float(n)] for a non-negative int, exact below 2^53. *)
Fixpoint float_of_nat (n : nat) : float :=
  match n with
  | O => 0%float
  | S k => (float_of_nat k + 1)%float
  end.

(** ** Relevance ranker *)

Module Ranker.

Definition travel_keywords : list pystr :=
  map py ["itinerary"; "activities"; "attractions"; "restaurants"; "hotels";
          "transportation"; "budget"; "schedule"]%string.

Definition travel_boost_terms : list pystr :=
  map py ["restaurant"; "hotel"; "attraction"; "activity"; "food"; "culture";
          "history"; "city"; "place"; "visit"; "trip"; "travel"]%string.

Definition group_boost_terms : list pystr :=
  map py ["group"; "friends"; "college"; "young"; "budget"; "affordable";
          "student"]%string.

Definition title_boost_terms : list pystr :=
  map py ["restaurant"; "hotel"; "activity"; "attraction"; "thing to do";
          "tip"]%string.

Definition get_str (o : option pystr) : pystr :=
  match o with Some s => s | None => [] end.

Definition get_list (o : option (list pystr)) : list pystr :=
  match o with Some l => l | None => [] end.

(** Lines 124-134: the query string. *)
Definition build_query (persona : persona_dict) (job_description : pystr)
  : pystr :=
  let persona_role := get_str (role persona) in
  let persona_expertise := get_str (expertise persona) in
  let persona_focus := join (py " ") (get_list (focus_areas persona)) in
  let persona_expertise :=
    if contains (py "travel") (lower persona_role)
       || contains (py "planner") (lower persona_role)
    then persona_expertise ++ py " " ++ join (py " ") travel_keywords
    else persona_expertise in
  let persona_text :=
    persona_role ++ py " " ++ persona_expertise ++ py " " ++ persona_focus in
  persona_text ++ py " " ++ job_description.

(** [for term in terms: if term in haystack: boost += step] *)
Definition add_hits (step : float) (terms : list pystr) (haystack : pystr)
           (boost : float) : float :=
  fold_left (fun b term => if contains term haystack then (b + step)%float else b)
            terms boost.

(** Lines 159-175: the boost of one section. *)
Definition boost_of (s : section) : float :=
  let section_lower := lower (text s) in
  let boost := add_hits 0.1 travel_boost_terms section_lower 0 in
  let boost := add_hits 0.05 group_boost_terms section_lower boost in
  let title_lower := lower (section_title s) in
  if existsb (fun term => contains term title_lower) title_boost_terms
  then (boost + 0.2)%float
  else boost.

Definition set_rank (score : float) (rank : nat) (s : section) : section :=
  mkSection (document s) (page_number s) (section_title s) (text s)
            (Some score) (Some rank).

(** One iteration of the loop of lines 155-179; [None] is the
    [IndexError] of [similarities[i]]. *)
Definition score_section (similarities : list float) (i : nat) (s : section)
  : option section :=
  match nth_error similarities i with
  | Some base_score => Some (set_rank (base_score + boost_of s)%float 0 s)
  | None => None
  end.

Fixpoint all_some {A : Type} (l : list (option A)) : option (list A) :=
  match l with
  | [] => Some []
  | Some x :: l' =>
      match all_some l' with
      | Some xs => Some (x :: xs)
      | None => None
      end
  | None :: _ => None
  end.

Definition score_sections (similarities : list float) (sections : list section)
  : option (list section) :=
  all_some (map (fun '(i, s) => score_section similarities i s)
                (enumerate sections)).

(** [x['relevance_score']], set on every section before it is read. *)
Definition score_of (s : section) : float :=
  match relevance_score s with Some v => v | None => 0%float end.

(** [sections.sort(key=lambda x: x['relevance_score'], reverse=True)]: the
    stable sort by descending score.  This is what [list.sort] does when
    no score is NaN; with a NaN among the keys the result of [list.sort]
    depends on the comparisons it happens to make and is not modelled. *)
Definition sort_by_relevance (sections : list section) : list section :=
  stable_sort (fun y x => (score_of x <? score_of y)%float) sections.

(** Lines 185-186. *)
Definition assign_ranks (sections : list section) : list section :=
  map (fun '(i, s) => set_rank (score_of s) (i + 1) s) (enumerate sections).

(** Lines 191-193. *)
Definition fallback_ranks (sections : list section) : list section :=
  map (fun '(i, s) => set_rank (1 / float_of_nat (i + 1))%float (i + 1) s)
      (enumerate sections).

Section WithCollaborators.

Context {C : Collaborators}.

(** The [try] block of lines 140-186; [None] when it raises. *)
Definition try_rank (sections : list section) (query : pystr)
  : option (list section) :=
  match tfidf_similarities (map text sections ++ [query]) with
  | Some similarities =>
      match score_sections similarities sections with
      | Some scored => Some (assign_ranks (sort_by_relevance scored))
      | None => None
      end
  | None => None
  end.

(** [rank_sections_by_relevance]; [job_description] is the job as the
    f-string of line 134 prints it.  The dicts of the list are distinct
    objects, as those that [extract_text_from_pdf] creates are. *)
Definition rank_sections_by_relevance (sections : list section)
           (persona : persona_dict) (job_description : pystr)
  : list section :=
  match sections with
  | [] => []
  | _ :: _ =>
      let query := build_query persona job_description in
      firstn 15 match try_rank sections query with
                | Some ranked => ranked
                | None => fallback_ranks sections
                end
  end.

End WithCollaborators.

End Ranker.

(** ** Exceptions *)

Inductive exn : Type :=
| KeyError (key : pystr)
| AttributeError (message : pystr).

Inductive result (A : Type) : Type :=
| Ok (a : A)
| Raise (e : exn).

Arguments Ok {A} a.
Arguments Raise {A} e.

Definition bind {A B : Type} (r : result A) (k : A -> result B) : result B :=
  match r with
  | Ok a => k a
  | Raise e => Raise e
  end.

Notation "x <- r ;; k" := (bind r (fun x => k))
  (at level 61, r at next level, right associativity).

(** ** Section refiner *)

(** An element of [sub_section_analysis]. *)
Record refined_section : Type := mkRefined {
  r_document : pystr;
  r_page_number : nat;
  r_section_title : pystr;
  refined_text : pystr;
  r_importance_rank : option nat
}.

Module Refiner.

Import Re.

(** "\b[a-zA-Z]{4,}\b" *)
Definition term_pattern : regex := cats [Wordb; Rep letter 4 None; Wordb].

(** "[.!?]+" *)
Definition sentence_end : regex := plus (one_of (py ".!?")).

Definition pystr_eq_dec : forall a b : pystr, {a = b} + {a <> b} :=
  list_eq_dec ascii_dec.

(** [job_description.lower()]: only a [str] has the method. *)
Definition lower_of (v : json) : result pystr :=
  match v with
  | JStr s => Ok (lower s)
  | JObj _ => Raise (AttributeError (py "'dict' object has no attribute 'lower'"))
  | JArr _ => Raise (AttributeError (py "'list' object has no attribute 'lower'"))
  | JInt _ => Raise (AttributeError (py "'int' object has no attribute 'lower'"))
  | JFloat _ => Raise (AttributeError (py "'float' object has no attribute 'lower'"))
  | JBool _ => Raise (AttributeError (py "'bool' object has no attribute 'lower'"))
  | JNull => Raise (AttributeError (py "'NoneType' object has no attribute 'lower'"))
  end.

(** Line 202: the set of key terms, as a list without repeats. *)
Definition job_terms_of (lowered : pystr) : list pystr :=
  nodup pystr_eq_dec (findall term_pattern lowered).

(** Line 205. *)
Definition sentences_of (t : pystr) : list pystr :=
  map strip (filter (fun s => 20 <? length (strip s)) (Re.split sentence_end t)).

(** Line 211. *)
Definition sentence_score (job_terms : list pystr) (sentence : pystr) : nat :=
  length (filter (fun term => contains term (lower sentence)) job_terms).

(** Lines 208-219. *)
Definition top_sentences_of (job_terms : list pystr) (sentences : list pystr)
  : list pystr :=
  let scored_sentences :=
    map (fun sentence => (sentence_score job_terms sentence, sentence))
        sentences in
  let scored_sentences :=
    stable_sort (fun y x => fst x <? fst y) scored_sentences in
  let top_sentences := map snd (firstn 3 scored_sentences) in
  match top_sentences, sentences with
  | [], _ :: _ => firstn 2 sentences
  | _, _ => top_sentences
  end.

(** Lines 221-223. *)
Definition terminate (refined : pystr) : pystr :=
  if endswith (py ".") refined then refined else refined ++ py ".".

(** Lines 205-231 for a section that has its [importance_rank]: the entry
    that is appended. *)
Definition refine_section (job_terms : list pystr) (s : section)
  : refined_section :=
  let sentences := sentences_of (text s) in
  let top_sentences := top_sentences_of job_terms sentences in
  mkRefined (document s) (page_number s) (section_title s)
            (terminate (join (py ". ") top_sentences))
            (importance_rank s).

(** The body of the loop of lines 204-231: [section['importance_rank']]
    at line 230 raises [KeyError] for a section that was never ranked. *)
Definition refine_entry (job_terms : list pystr) (s : section)
  : result refined_section :=
  match importance_rank s with
  | Some _ => Ok (refine_section job_terms s)
  | None => Raise (KeyError (py "importance_rank"))
  end.

(** The results of a loop in order, or the first exception. *)
Fixpoint collect {A : Type} (entries : list (result A)) : result (list A) :=
  match entries with
  | [] => Ok []
  | r :: rest => a <- r ;; l <- collect rest ;; Ok (a :: l)
  end.

(** [refine_sections] *)
Definition refine_sections (sections : list section) (job_description : json)
  : result (list refined_section) :=
  lowered <- lower_of job_description ;;
  collect (map (refine_entry (job_terms_of lowered)) sections).

End Refiner.

(** ** Pipeline orchestrator *)

(** The configuration read from [input_config.json], with [documents] and
    [persona] present and of the documented types. *)
Record config : Type := mkConfig {
  documents : list pystr;
  persona : persona_dict;
  job_to_be_done : json;
  challenge_info : option json
}.

(** An element of [extracted_sections]. *)
Record extracted_section : Type := mkExtracted {
  e_document : pystr;
  e_page_number : nat;
  e_section_title : pystr;
  e_importance_rank : option nat
}.

(** The result dict, without the timestamp and the elapsed time. *)
Record output : Type := mkOutput {
  meta_input_documents : list pystr;
  meta_persona : persona_dict;
  meta_job_to_be_done : json;
  meta_challenge_info : option json;
  meta_error : option exn;
  extracted_sections : list extracted_section;
  sub_section_analysis : list refined_section
}.

Module Orchestrator.

Import Ranker Refiner.

(** [os.path.basename] on a POSIX path. *)
Fixpoint last_component (p cur : pystr) : pystr :=
  match p with
  | [] => rev cur
  | c :: p' =>
      if Ascii.eqb c "/" then last_component p' [] else last_component p' (c :: cur)
  end.

Definition basename (p : pystr) : pystr := last_component p [].

Definition set_document (d : pystr) (s : section) : section :=
  mkSection d (page_number s) (section_title s) (text s)
            (relevance_score s) (importance_rank s).

(** [bool(v)] *)
Definition truthy (v : json) : bool :=
  match v with
  | JNull => false
  | JBool b => b
  | JInt n => negb (n =? 0)%Z
  | JFloat x => negb (x =? 0)%float
  | JStr s => negb (length s =? 0)
  | JArr l => negb (length l =? 0)
  | JObj d => negb (length d =? 0)
  end.

(** [d[key]] *)
Fixpoint lookup (key : pystr) (d : list (pystr * json)) : result json :=
  match d with
  | [] => Raise (KeyError key)
  | (k, v) :: d' => if pystr_eq_dec k key then Ok v else lookup key d'
  end.

(** Lines 246-258: the job description and the challenge info. *)
Definition read_job (cfg : config) : result (json * json) :=
  match challenge_info cfg with
  | Some info =>
      job <- match job_to_be_done cfg with
             | JObj d => lookup (py "task") d
             | v => Ok v
             end ;;
      Ok (job, info)
  | None => Ok (job_to_be_done cfg, JObj [])
  end.

Section WithCollaborators.

Context {C : Collaborators}.

(** The job description as an f-string prints it. *)
Definition format_value (v : json) : pystr :=
  match v with
  | JStr s => s
  | _ => py_repr v
  end.

(** [extract_text_from_pdf] *)
Definition extract_text_from_pdf (pdf_path : pystr) : list section :=
  flat_map
    (fun '(page_num, page) =>
       match page with
       | Some t =>
           if negb (length t =? 0) && (50 <? length (strip t))
           then map (set_document (basename pdf_path))
                    (Segmenter._split_into_sections t page_num)
           else []
       | None => []
       end)
    (enumerate_from 1 (pdf_pages pdf_path)).

(** The [try] block of [process_documents]. *)
Definition run_pipeline (cfg : config) : result output :=
  ji <- read_job cfg ;;
  let (job_description, info) := ji in
  let found := filter path_exists (documents cfg) in
  let all_sections := flat_map extract_text_from_pdf found in
  let processed_docs := map basename found in
  let ranked_sections :=
    rank_sections_by_relevance all_sections (persona cfg)
                               (format_value job_description) in
  refined_sections <- refine_sections ranked_sections job_description ;;
  Ok (mkOutput processed_docs (persona cfg) job_description
               (if truthy info then Some info else None)
               None
               (map (fun s => mkExtracted (document s) (page_number s)
                                          (section_title s)
                                          (importance_rank s))
                    ranked_sections)
               refined_sections).

(** [process_documents], from the loaded configuration on. *)
Definition process_documents (cfg : config) : output :=
  match run_pipeline cfg with
  | Ok out => out
  | Raise e => mkOutput [] (mkPersona None None None) (JStr []) None (Some e) [] []
  end.

End WithCollaborators.

End Orchestrator.

(** * Specification vocabulary and example inputs *)

(** [x] stands somewhere before [y] in the list. *)
Inductive precedes {A : Type} (x y : A) : list A -> Prop :=
| precedes_here (l : list A) : In y l -> precedes x y (x :: l)
| precedes_later (z : A) (l : list A) : precedes x y l -> precedes x y (z :: l).

Module ReSpec.

Import Re.

(** [fails_nl_free r]: [r] has no match in a text without newline. *)
Definition fails_nl_free (r : regex) : Prop :=
  forall st, ~ In newline (rest st) -> run r st = [].

(** [consumes r]: every match of [r] takes at least one character. *)
Definition consumes (r : regex) : Prop :=
  forall st st', In st' (run r st) -> length (rest st') < length (rest st).

End ReSpec.

Module SegmenterSpec.

Import Re Segmenter.

(** The candidate sections as the specification words them: for each
    boundary in turn the text between the previous boundary (or the start
    of the page) and this one, under the previous boundary's heading
    ("Introduction" before the first), then the text from the last boundary
    to the end of the page. *)
Fixpoint spans_from (t title : pystr) (start : nat) (bs : list (nat * pystr))
  : list (pystr * pystr) :=
  match bs with
  | [] => [(title, strip (skipn start t))]
  | (pos, next) :: bs' =>
      (if start <? pos then [(title, strip (slice t start pos))] else [])
      ++ spans_from t next pos bs'
  end.

Definition candidate_spans (t : pystr) (bs : list (nat * pystr))
  : list (pystr * pystr) :=
  spans_from t (py "Introduction") 0 bs.

Definition long_enough (x : pystr) : bool := 100 <? length x.

Definition titled (s : section) : pystr * pystr := (section_title s, text s).

(** The page of the specification's end-to-end example: two headings in
    capitals, each on a line of its own, each followed by a paragraph of
    104 characters. *)
Definition headed_page : pystr :=
  py "INTRODUCTION" ++ [newline]
  ++ py "This guide covers budget restaurants and hotels for young travelers on a trip. It is affordable and fun."
  ++ [newline] ++ py "CONCLUSION" ++ [newline]
  ++ py "Visit the city and enjoy the culture and history of the place for a great trip experience overall today.".

(** The specification's third kind of heading, in its words: "a
    whitelisted section keyword (Abstract, Introduction, Methods, Results,
    Discussion, Conclusion, References, Background, Related Work,
    Experiments -- case-insensitive, optionally pluralized)".  The
    keywords that have a plural are listed in the singular. *)
Definition section_keywords : list pystr :=
  [py "Abstract"; py "Introduction"; py "Method"; py "Result";
   py "Discussion"; py "Conclusion"; py "References"; py "Background";
   py "Related Work"; py "Experiment"].

(** In the specification's words a heading pattern matches the text: a
    whitelisted keyword stands in it, in any case. *)
Definition keyword_heading_in (t : pystr) : bool :=
  existsb (fun keyword => contains (lower keyword) (lower t)) section_keywords.

End SegmenterSpec.

Module RankerSpec.

Import Ranker.

(** Collaborators whose vectorizer always raises, as scikit-learn does
    (ValueError: empty vocabulary) on a corpus in which no text has a
    token, a run of two or more word characters. *)
Definition raising : Collaborators :=
  {| tfidf_similarities := fun _ => None;
     pdf_pages := fun _ => [];
     path_exists := fun _ => false;
     py_repr := fun _ => [] |}.

Definition plain (title body : pystr) : section :=
  mkSection (py "guide.pdf") 1 title body None None.

Definition nobody : persona_dict := mkPersona None None None.

(** Collaborators whose vectorizer gives every section the similarity 0,
    as scikit-learn does when the query has no term (empty persona, empty
    job description). *)
Definition zero_similarity : Collaborators :=
  {| tfidf_similarities := fun texts => Some (map (fun _ => 0%float) (removelast texts));
     pdf_pages := fun _ => [];
     path_exists := fun _ => false;
     py_repr := fun _ => [] |}.

(** What segmentation put into a section. *)
Definition content (s : section) : pystr * nat * pystr * pystr :=
  (document s, page_number s, section_title s, text s).

(** The section without the fields an earlier ranking may have left. *)
Definition unranked (s : section) : section :=
  mkSection (document s) (page_number s) (section_title s) (text s) None None.

Definition travel_keyword_text : pystr :=
  py "itinerary activities attractions restaurants hotels transportation budget schedule".

Definition travel_role (persona : persona_dict) : bool :=
  contains (py "travel") (lower (get_str (role persona)))
  || contains (py "planner") (lower (get_str (role persona))).

Definition travel_planner : persona_dict :=
  mkPersona (Some (py "Travel Planner")) (Some (py "group trips"))
            (Some [py "budget"; py "food"]).

Definition chef_who_travels : persona_dict :=
  mkPersona (Some (py "Chef")) (Some (py "travel planner")) None.

(** The terms of a list that the lower-cased text contains. *)
Definition hits_in (terms : list pystr) (t : pystr) : nat :=
  length (filter (fun term => contains term (lower t)) terms).

(** [boost] after [n] additions of [step]. *)
Fixpoint add_times (n : nat) (step boost : float) : float :=
  match n with
  | O => boost
  | S k => add_times k step (boost + step)%float
  end.

Definition title_hit (title : pystr) : bool :=
  existsb (fun term => contains term (lower title)) title_boost_terms.



(** Two sections with the score 0.1, the second with fields left by an
    earlier ranking. *)
Definition old_city : section :=
  mkSection (py "guide.pdf") 1 (py "First") (py "A walk through the old city.")
            (Some 0.1%float) (Some 0).

Definition resting_place : section :=
  mkSection (py "guide.pdf") 2 (py "Second") (py "A place to rest.")
            (Some 0.1%float) (Some 7).

Definition quiet_room : section := plain (py "Stay") (py "A quiet room").

Definition hotel_by_river : section :=
  plain (py "Stay") (py "A hotel by the river").


(** A page of ornaments: a text without a token.  With the empty persona
    and the empty job description the query, three spaces, has none
    either. *)
Definition ornaments : section := plain (py "Notes") (py "* * *").

End RankerSpec.

Module RefinerSpec.

Definition harbour : section :=
  mkSection (py "guide.pdf") 4 (py "Harbour")
            (py "The harbour is busy in the early morning! Boats leave for the islands every hour. A trip to the lighthouse takes one afternoon. Plan the trip around the ferry timetable?")
            (Some 0.75%float) (Some 2).

Definition museum : section :=
  mkSection (py "guide.pdf") 3 (py "Museum")
            (py "The museum opens at nine every morning. Tickets are sold at the main entrance gate. Guided tours start from the central hall. Lunch is served in the garden cafe daily.")
            (Some 0.5%float) (Some 1).

End RefinerSpec.

Module OrchestratorSpec.

Import Ranker Refiner Orchestrator.

Definition no_lower : exn :=
  AttributeError (py "'dict' object has no attribute 'lower'").

(** The result of the [except] branch of [process_documents]. *)
Definition error_output (e : exn) : output :=
  mkOutput [] (mkPersona None None None) (JStr []) None (Some e) [] [].

Definition trip_task : json :=
  JObj [(py "task", JStr (py "Plan a trip"))].

Definition challenge : json :=
  JObj [(py "challenge_id", JStr (py "round_1b_002"))].

Section WithCollaborators.

Context {C : Collaborators}.

(** The sections of the documents that exist. *)
Definition all_sections_of (docs : list pystr) : list section :=
  flat_map extract_text_from_pdf (filter path_exists docs).

(** The result for a job description that is the string [t]. *)
Definition output_for (docs : list pystr) (who : persona_dict) (t : pystr)
           (info : json) : output :=
  let ranked := rank_sections_by_relevance (all_sections_of docs) who t in
  mkOutput (map basename (filter path_exists docs)) who (JStr t)
           (if truthy info then Some info else None)
           None
           (map (fun s => mkExtracted (document s) (page_number s)
                                      (section_title s) (importance_rank s))
                ranked)
           (map (refine_section (job_terms_of (lower t))) ranked).

End WithCollaborators.

End OrchestratorSpec.

(** ** Vocabulary of the further properties *)

(** [in_order A before a b]: in a list sorted with [before], [b] may stand
    behind [a]. *)
Definition in_order (A : Type) (before : A -> A -> bool) (a b : A) : Prop :=
  before b a = false.

Module NormalizeSpec.

Import Re.

(** The text with every run of whitespace replaced by one space, written
    as a single pass; [in_run] says that the character before was
    whitespace. *)
Fixpoint squeeze (in_run : bool) (s : pystr) : pystr :=
  match s with
  | [] => []
  | c :: s' =>
      if isspace c
      then if in_run then squeeze true s' else " "%char :: squeeze true s'
      else c :: squeeze false s'
  end.

(** [tidy after_space s]: every whitespace character of [s] is a plain
    space and stands behind a character that is not whitespace. *)
Fixpoint tidy (after_space : bool) (s : pystr) : bool :=
  match s with
  | [] => true
  | c :: s' =>
      if isspace c
      then Ascii.eqb c " " && negb after_space && tidy true s'
      else tidy false s'
  end.

Definition not_space_at_head (s : pystr) : Prop :=
  match s with c :: _ => isspace c = false | [] => True end.

(** Whether a text ends in whitespace; [b] answers for the empty text. *)
Fixpoint ends_in_space (b : bool) (x : pystr) : bool :=
  match x with
  | [] => b
  | c :: x' => ends_in_space (isspace c) x'
  end.

(** The text a token list stands for once every match is replaced. *)
Definition render (repl : pystr) (ts : list token) : pystr :=
  flat_map (fun t => match t with Gap c => [c] | Hit _ => repl end) ts.

End NormalizeSpec.

Module ExtractorSpec.

Import Segmenter Orchestrator.

(** What a page contributes: its normalized text as one section, when
    that text is longer than 100 characters. *)
Definition page_section (doc : pystr) (page_num : nat) (page : option pystr)
  : list section :=
  match page with
  | Some t =>
      if 100 <? length (normalize t)
      then [mkSection doc page_num (py "Section 1") (normalize t) None None]
      else []
  | None => []
  end.

Section WithCollaborators.

Context {C : Collaborators}.

(** An entry with these fields was cut from a page of the PDF at [path]:
    the page exists, has text, and its normalized text is longer than 100
    characters. *)
Definition from_page_of (path : pystr) (doc : pystr) (page_num : nat)
           (title : pystr) : Prop :=
  doc = basename path
  /\ title = py "Section 1"
  /\ 1 <= page_num
  /\ exists t, nth_error (pdf_pages path) (page_num - 1) = Some (Some t)
               /\ 100 < length (normalize t).

End WithCollaborators.

End ExtractorSpec.

Module ScoreSpec.

Import Ranker RankerSpec.

(** [not_above a b]: the score of [b] is not greater than that of [a]. *)
Definition not_above (a b : section) : Prop :=
  (score_of a <? score_of b)%float = false.

(** The score is a number. *)
Definition has_score (s : section) : Prop := is_nan (score_of s) = false.

(** The score the fallback gives to the section at index [i]. *)
Definition fallback_score (i : nat) : float := (1 / float_of_nat (i + 1))%float.

Fixpoint descending (l : list float) : bool :=
  match l with
  | [] => true
  | x :: l' => forallb (fun y => negb (x <? y)%float) l' && descending l'
  end.

(** The section has a score and a rank. *)
Definition annotated (s : section) : Prop :=
  exists score rank, relevance_score s = Some score /\ importance_rank s = Some rank.

(** The boost of a section whose text contains [travel] of the travel
    terms and [group] of the group terms, with or without a title hit. *)
Definition boost_value (travel group : nat) (title : bool) : float :=
  let b := add_times travel 0.1 0 in
  let b := add_times group 0.05 b in
  if title then (b + 0.2)%float else b.

(** 1.7500000000000002 *)
Definition boost_max : float := 0x1.c000000000001p+0%float.

Definition in_bounds (x : float) : bool := (0 <=? x)%float && (x <=? boost_max)%float.



End ScoreSpec.

Module SentenceSpec.

Import Re Refiner.

Definition lowercase_letter (c : ascii) : bool := between 97 122 c.

Definition terminator (c : ascii) : bool := one_of (py ".!?") c.

(** The sentences with their scores, as line 213 leaves them. *)
Definition scored (job_terms sentences : list pystr) : list (nat * pystr) :=
  stable_sort (fun y x => fst x <? fst y)
              (map (fun sentence => (sentence_score job_terms sentence, sentence))
                   sentences).

(** A section whose pieces between terminators are all short. *)
Definition caption : section :=
  mkSection (py "guide.pdf") 2 (py "Section 1") (py "Fig. 3. Map of the old town!")
            (Some 0.25%float) (Some 4).

End SentenceSpec.

Module PipelineSpec.

Import Ranker Refiner Orchestrator OrchestratorSpec.

(** The four fields that an entry of [extracted_sections] and the entry of
    [sub_section_analysis] for the same section share. *)
Definition extracted_key (e : extracted_section) : pystr * nat * pystr * option nat :=
  (e_document e, e_page_number e, e_section_title e, e_importance_rank e).

Definition refined_key (r : refined_section) : pystr * nat * pystr * option nat :=
  (r_document r, r_page_number r, r_section_title r, r_importance_rank r).

Section WithCollaborators.

Context {C : Collaborators}.

(** The configuration with the documents that do not exist left out. *)
Definition existing_only (cfg : config) : config :=
  mkConfig (filter path_exists (documents cfg)) (persona cfg)
           (job_to_be_done cfg) (challenge_info cfg).

End WithCollaborators.

Definition guide_page : pystr :=
  py "The harbour is busy in the early morning! Boats leave for the islands every hour. A trip to the lighthouse takes one afternoon.".

Definition hotels_page : pystr :=
  py "   Hotels near the harbour are booked early in summer. The old town has small family hotels and a few restaurants that open late. ".

(** Collaborators with two PDFs: [docs/guide.pdf], a short cover and a
    page of text, and [docs/hotels.pdf], a page without text and a page of
    text; the vectorizer gives every section the similarity 0. *)
Definition two_guides : Collaborators :=
  {| tfidf_similarities := fun texts => Some (map (fun _ => 0%float) (removelast texts));
     pdf_pages := fun path =>
       if pystr_eq_dec path (py "docs/guide.pdf")
       then [Some (py "City guide"); Some guide_page]
       else if pystr_eq_dec path (py "docs/hotels.pdf")
            then [None; Some hotels_page]
            else [];
     path_exists := fun path =>
       if pystr_eq_dec path (py "docs/guide.pdf") then true
       else if pystr_eq_dec path (py "docs/hotels.pdf") then true else false;
     py_repr := fun _ => [] |}.

(** A configuration that lists the two PDFs and one that does not exist. *)
Definition harbour_trip : config :=
  mkConfig [py "docs/guide.pdf"; py "docs/missing.pdf"; py "docs/hotels.pdf"]
           RankerSpec.travel_planner (JStr (py "Plan a trip")) None.

End PipelineSpec.

(** * Properties *)

(** ** Lists *)

Lemma In_firstn {A : Type} (n : nat) (l : list A) (x : A) :
  In x (firstn n l) -> In x l.
Proof.
  intros H. rewrite <- (firstn_skipn n l). apply in_or_app. left. exact H.
Qed.

Lemma map_firstn {A B : Type} (f : A -> B) (n : nat) (l : list A) :
  map f (firstn n l) = firstn n (map f l).
Proof.
  revert l. induction n as [|n IH]; intros [|x l]; simpl; try reflexivity.
  rewrite IH. reflexivity.
Qed.

Lemma firstn_seq_min (n start len : nat) :
  firstn n (seq start len) = seq start (Nat.min n len).
Proof.
  revert start len. induction n as [|n IH]; intros start [|len]; simpl;
    try reflexivity.
  rewrite IH. reflexivity.
Qed.

Lemma enumerate_from_length {A : Type} (l : list A) (i : nat) :
  length (enumerate_from i l) = length l.
Proof.
  revert i. induction l as [|x l IH]; intros i; simpl; [reflexivity|].
  rewrite IH. reflexivity.
Qed.

Lemma map_enumerate_keeps {A B D : Type} (g : B -> D) (f : nat * A -> B)
      (h : A -> D) :
  (forall i x, g (f (i, x)) = h x) ->
  forall l k, map g (map f (enumerate_from k l)) = map h l.
Proof.
  intros Hf l. induction l as [|x l IH]; intros k; simpl; [reflexivity|].
  rewrite Hf, IH. reflexivity.
Qed.

(** ** Floats *)

(** No float is less than itself. *)
Lemma float_ltb_irrefl (x : float) : (x <? x)%float = false.
Proof.
  rewrite ltb_spec. unfold SpecFloat.SFltb.
  destruct (Prim2SF x) as [s|s| |s m e]; simpl; try reflexivity.
  - destruct s; reflexivity.
  - destruct s;
      rewrite ?Z.compare_refl, ?Pos.compare_cont_refl, ?Pos.compare_refl;
      reflexivity.
Qed.

(** ** The stable sort *)

Section StableSortFacts.

Variable A : Type.
Variable before : A -> A -> bool.

Lemma insert_length (x : A) (l : list A) :
  length (insert before x l) = S (length l).
Proof.
  induction l as [|y l IH]; simpl; [reflexivity|].
  destruct (before y x); simpl; [rewrite IH|]; reflexivity.
Qed.

Lemma stable_sort_length (l : list A) :
  length (stable_sort before l) = length l.
Proof.
  induction l as [|x l IH]; simpl; [reflexivity|].
  rewrite insert_length, IH. reflexivity.
Qed.

Lemma insert_In (x y : A) (l : list A) :
  In y (insert before x l) <-> y = x \/ In y l.
Proof.
  induction l as [|z l IH]; simpl.
  - split; intros [H|H]; auto.
  - destruct (before z x); simpl; rewrite ?IH; intuition congruence.
Qed.

Lemma stable_sort_In (y : A) (l : list A) :
  In y (stable_sort before l) <-> In y l.
Proof.
  induction l as [|x l IH]; simpl; [reflexivity|].
  rewrite insert_In, IH. intuition congruence.
Qed.

(** The element that comes in stays before every element it need not
    follow. *)
Lemma insert_precedes_new (x y : A) (l : list A) :
  In y l -> before y x = false -> precedes x y (insert before x l).
Proof.
  intros Hin Hyx. induction l as [|z l IH]; simpl; [contradiction|].
  destruct (before z x) eqn:Hz.
  - apply precedes_later. apply IH.
    destruct Hin as [->|Hin]; [congruence | exact Hin].
  - apply precedes_here. exact Hin.
Qed.

Lemma insert_precedes_old (x a b : A) (l : list A) :
  precedes a b l -> precedes a b (insert before x l).
Proof.
  induction 1 as [l Hin|z l H IH]; simpl.
  - destruct (before a x).
    + apply precedes_here. apply insert_In. right. exact Hin.
    + apply precedes_later, precedes_here. exact Hin.
  - destruct (before z x).
    + apply precedes_later. exact IH.
    + apply precedes_later, precedes_later. exact H.
Qed.

(** Stability: two elements change places only when the later one must
    come strictly before the earlier one. *)
Lemma stable_sort_stable (x y : A) (l : list A) :
  precedes x y l -> before y x = false -> precedes x y (stable_sort before l).
Proof.
  intros H Hyx. induction H as [l Hin|z l H IH]; simpl.
  - apply insert_precedes_new; [|exact Hyx].
    apply stable_sort_In. exact Hin.
  - apply insert_precedes_old. exact IH.
Qed.

(** A list in which no element must come before another is left as it is. *)
Lemma stable_sort_unordered (l : list A) :
  (forall x y, In x l -> In y l -> before y x = false) ->
  stable_sort before l = l.
Proof.
  induction l as [|x l IH]; intros H; simpl; [reflexivity|].
  rewrite IH.
  - destruct l as [|y l]; simpl; [reflexivity|].
    rewrite (H x y); [reflexivity | left; reflexivity | right; left; reflexivity].
  - intros a b Ha Hb. apply H; right; assumption.
Qed.

End StableSortFacts.

(** ** Python strings *)

Module PyStrFacts.

Lemma lstrip_decompose (s : pystr) :
  exists p, s = p ++ lstrip s /\ Forall (fun c => isspace c = true) p.
Proof.
  induction s as [|c s IH]; simpl.
  - exists []. split; [reflexivity | constructor].
  - destruct (isspace c) eqn:Hc.
    + destruct IH as (p & Hp & Hall).
      exists (c :: p). split; [simpl; congruence | constructor; assumption].
    + exists []. split; [reflexivity | constructor].
Qed.

Lemma lstrip_head (s : pystr) :
  match lstrip s with
  | c :: _ => isspace c = false
  | [] => True
  end.
Proof.
  induction s as [|c s IH]; simpl; [exact I|].
  destruct (isspace c) eqn:Hc; [exact IH | exact Hc].
Qed.

Lemma lstrip_fixed (s : pystr) :
  match s with c :: _ => isspace c = false | [] => True end ->
  lstrip s = s.
Proof.
  destruct s as [|c s]; simpl; [reflexivity|].
  intros ->. reflexivity.
Qed.

Lemma lstrip_idempotent (s : pystr) : lstrip (lstrip s) = lstrip s.
Proof. apply lstrip_fixed, lstrip_head. Qed.

Lemma rstrip_decompose (s : pystr) :
  exists q, s = rstrip s ++ q /\ Forall (fun c => isspace c = true) q.
Proof.
  unfold rstrip.
  destruct (lstrip_decompose (rev s)) as (p & Hp & Hall).
  exists (rev p). split.
  - rewrite <- rev_app_distr, <- Hp, rev_involutive. reflexivity.
  - apply Forall_rev. exact Hall.
Qed.

Lemma rstrip_idempotent (s : pystr) : rstrip (rstrip s) = rstrip s.
Proof.
  unfold rstrip. rewrite rev_involutive, lstrip_idempotent. reflexivity.
Qed.

(** Stripping the right end leaves a head that is not a space in place. *)
Lemma rstrip_keeps_head (s : pystr) :
  match s with c :: _ => isspace c = false | [] => True end ->
  match rstrip s with c :: _ => isspace c = false | [] => True end.
Proof.
  intros Hs.
  destruct (rstrip_decompose s) as (q & Hq & _).
  destruct (rstrip s) as [|c r]; [exact I|].
  rewrite Hq in Hs. exact Hs.
Qed.

Lemma strip_idempotent (s : pystr) : strip (strip s) = strip s.
Proof.
  unfold strip at 1.
  rewrite (lstrip_fixed (strip s)).
  - unfold strip. apply rstrip_idempotent.
  - unfold strip. apply rstrip_keeps_head, lstrip_head.
Qed.

Lemma strip_decompose (s : pystr) :
  exists p q, s = p ++ strip s ++ q.
Proof.
  destruct (lstrip_decompose s) as (p & Hp & _).
  destruct (rstrip_decompose (lstrip s)) as (q & Hq & _).
  exists p, q. unfold strip. rewrite <- Hq. exact Hp.
Qed.

Lemma strip_incl (s : pystr) (c : ascii) : In c (strip s) -> In c s.
Proof.
  intros H. destruct (strip_decompose s) as (p & q & E).
  rewrite E. apply in_or_app. right. apply in_or_app. left. exact H.
Qed.

Lemma strip_length (s : pystr) : length (strip s) <= length s.
Proof.
  destruct (strip_decompose s) as (p & q & E).
  rewrite E at 2. rewrite !length_app. lia.
Qed.

Lemma startswith_head (a : ascii) (p s : pystr) :
  startswith (a :: p) s = true -> In a s.
Proof.
  destruct s as [|b s]; simpl; [discriminate|].
  intros H. apply andb_prop in H. destruct H as [H _].
  apply Ascii.eqb_eq in H. left. symmetry. exact H.
Qed.

(** A text without the first character of the separator is one piece. *)
Lemma split_from_absent (a : ascii) (sep s cur : pystr) :
  ~ In a s ->
  split_from (a :: sep) s cur 0 = [rev cur ++ s].
Proof.
  revert cur. induction s as [|c s IH]; intros cur Hs; simpl.
  - rewrite app_nil_r. reflexivity.
  - destruct (Ascii.eqb a c) eqn:E.
    + apply Ascii.eqb_eq in E. subst. exfalso. apply Hs. left. reflexivity.
    + simpl. rewrite IH.
      * simpl. rewrite <- app_assoc. reflexivity.
      * intros H. apply Hs. right. exact H.
Qed.

Lemma split_absent (a : ascii) (sep s : pystr) :
  ~ In a s -> PyStr.split (a :: sep) s = [s].
Proof. intros H. unfold PyStr.split. rewrite split_from_absent by exact H. reflexivity. Qed.






End PyStrFacts.

(** ** The matcher *)

Module ReFacts.

Import Re ReSpec.

Lemma advance_suffix (k : nat) (st : mstate) :
  exists pre, rest st = pre ++ rest (advance k st).
Proof.
  revert st. induction k as [|k IH]; intros st; simpl.
  - exists []. reflexivity.
  - destruct (rest st) as [|c s'] eqn:E.
    + exists []. simpl. symmetry. exact E.
    + destruct (IH (MState (Some c) s' (grp st))) as (pre & Hpre).
      exists (c :: pre). simpl in *. rewrite Hpre at 1. reflexivity.
Qed.

(** A match consumes a prefix of the text: what is left is a suffix. *)
Lemma run_suffix (r : regex) :
  forall st st', In st' (run r st) -> exists pre, rest st = pre ++ rest st'.
Proof.
  induction r as [| | |p|r1 IH1 r2 IH2|r1 IH1 r2 IH2|p lo hi|r1 IH1|r1 IH1];
    intros st st' Hin; simpl in Hin.
  - destruct Hin as [<-|[]]. exists []. reflexivity.
  - destruct (prev st) as [c|].
    + destruct (is_newline c); [|contradiction].
      destruct Hin as [<-|[]]. exists []. reflexivity.
    + destruct Hin as [<-|[]]. exists []. reflexivity.
  - destruct (xorb _ _); [|contradiction].
    destruct Hin as [<-|[]]. exists []. reflexivity.
  - destruct (rest st) as [|c s'] eqn:E; [contradiction|].
    destruct (p c); [|contradiction].
    destruct Hin as [<-|[]]. exists [c]. reflexivity.
  - apply in_flat_map in Hin. destruct Hin as (st1 & H1 & H2).
    destruct (IH1 _ _ H1) as (pre1 & E1).
    destruct (IH2 _ _ H2) as (pre2 & E2).
    exists (pre1 ++ pre2). rewrite E1, E2, app_assoc. reflexivity.
  - apply in_app_or in Hin. destruct Hin as [H|H]; eauto.
  - destruct (_ <? lo); [contradiction|].
    apply in_map_iff in Hin. destruct Hin as (k & <- & _).
    apply advance_suffix.
  - apply in_app_or in Hin. destruct Hin as [H|[<-|[]]]; eauto.
    exists []. reflexivity.
  - apply in_map_iff in Hin. destruct Hin as (st1 & <- & H1).
    simpl. eauto.
Qed.

(** *** Patterns that take at least one character *)

Lemma run_shorter (r : regex) (st st' : mstate) :
  In st' (run r st) -> length (rest st') <= length (rest st).
Proof.
  intros H. destruct (run_suffix r st st' H) as (pre & E).
  rewrite E, length_app. lia.
Qed.

Lemma advance_length (k : nat) :
  forall st, k <= length (rest st) ->
             length (rest (advance k st)) = length (rest st) - k.
Proof.
  induction k as [|k IH]; intros st Hk; simpl; [lia|].
  destruct (rest st) as [|c s'] eqn:E; simpl in *; [lia|].
  rewrite IH; simpl; lia.
Qed.

Lemma run_length_le (p : ascii -> bool) (s : pystr) :
  forall hi, run_length p hi s <= length s.
Proof.
  induction s as [|c s IH]; intros hi.
  - destruct hi as [[|n]|]; simpl; lia.
  - destruct hi as [[|n]|]; simpl; try lia;
      destruct (p c); simpl; try lia.
    + specialize (IH (Some n)). simpl in IH. lia.
    + specialize (IH None). lia.
Qed.

Lemma countdown_le (lo n k : nat) : In k (countdown lo n) -> k <= lo + n.
Proof.
  induction n as [|n IH]; simpl.
  - intros [<-|[]]. lia.
  - intros [<-|H]; [lia | specialize (IH H); lia].
Qed.

Lemma countdown_ge (lo n k : nat) : In k (countdown lo n) -> lo <= k.
Proof.
  induction n as [|n IH]; simpl.
  - intros [<-|[]]. lia.
  - intros [<-|H]; [lia | exact (IH H)].
Qed.

Lemma consumes_cls (p : ascii -> bool) : consumes (Cls p).
Proof.
  intros st st' H. simpl in H.
  destruct (rest st) as [|c s'] eqn:E; [contradiction|].
  destruct (p c); [|contradiction].
  destruct H as [<-|[]]. simpl. lia.
Qed.

Lemma consumes_rep (p : ascii -> bool) (lo : nat) (hi : option nat) :
  1 <= lo -> consumes (Rep p lo hi).
Proof.
  intros Hlo st st' H. simpl in H.
  destruct (run_length p hi (rest st) <? lo) eqn:E; [contradiction|].
  apply Nat.ltb_ge in E.
  apply in_map_iff in H. destruct H as (k & <- & Hk).
  pose proof (countdown_ge _ _ _ Hk).
  pose proof (countdown_le _ _ _ Hk).
  pose proof (run_length_le p (rest st) hi).
  rewrite advance_length; lia.
Qed.

Lemma consumes_cat_l (r1 r2 : regex) : consumes r1 -> consumes (Cat r1 r2).
Proof.
  intros H1 st st' H. simpl in H. apply in_flat_map in H.
  destruct H as (st1 & Ha & Hb).
  pose proof (H1 _ _ Ha). pose proof (run_shorter _ _ _ Hb). lia.
Qed.

Lemma consumes_cat_r (r1 r2 : regex) : consumes r2 -> consumes (Cat r1 r2).
Proof.
  intros H2 st st' H. simpl in H. apply in_flat_map in H.
  destruct H as (st1 & Ha & Hb).
  pose proof (H2 _ _ Hb). pose proof (run_shorter _ _ _ Ha). lia.
Qed.

Ltac consume :=
  solve [ apply consumes_cls
        | apply consumes_rep; lia
        | apply consumes_cat_r; consume
        | apply consumes_cat_l; consume ].

(** A match that takes a character is not the empty text. *)
Lemma match_here_nonempty (r : regex) (before : option ascii) (pos : nat)
      (s : pystr) (m : rmatch) :
  consumes r -> match_here r before pos s = Some m -> 0 < length (m_text m).
Proof.
  intros Hr. unfold match_here.
  destruct (run r (MState before s None)) as [|st l] eqn:E; [discriminate|].
  intros H. inversion H. cbn [m_text].
  assert (Hin : In st (run r (MState before s None))) by (rewrite E; left; reflexivity).
  apply Hr in Hin. cbn [rest] in Hin.
  rewrite length_firstn. lia.
Qed.

(** *** Patterns that end in a newline *)

Lemma newline_fails : fails_nl_free (Cls is_newline).
Proof.
  intros st Hst. simpl.
  destruct (rest st) as [|c s'] eqn:E; [reflexivity|].
  destruct (is_newline c) eqn:Hc; [|reflexivity].
  exfalso. apply Hst. left. unfold is_newline in Hc.
  apply Ascii.eqb_eq in Hc. exact Hc.
Qed.

Lemma cat_fails_right (r1 r2 : regex) :
  fails_nl_free r2 -> fails_nl_free (Cat r1 r2).
Proof.
  intros H2 st Hst. simpl.
  assert (Hall : forall st', In st' (run r1 st) -> run r2 st' = []).
  { intros st' Hin. apply H2.
    destruct (run_suffix _ _ _ Hin) as (pre & E).
    intros Hnl. apply Hst. rewrite E. apply in_or_app. right. exact Hnl. }
  induction (run r1 st) as [|st1 l IH]; simpl; [reflexivity|].
  rewrite (Hall st1) by (left; reflexivity).
  apply IH. intros st' Hin. apply Hall. right. exact Hin.
Qed.

Lemma match_here_nl_free (r : regex) (before : option ascii) (pos : nat)
      (s : pystr) :
  fails_nl_free r -> ~ In newline s -> match_here r before pos s = None.
Proof.
  intros Hr Hs. unfold match_here. rewrite Hr by exact Hs. reflexivity.
Qed.

Lemma scan_nl_free (r : regex) :
  fails_nl_free r ->
  forall s before pos skip, ~ In newline s -> hits (scan r before pos s skip) = [].
Proof.
  intros Hr s. induction s as [|c s IH]; intros before pos skip Hs.
  - destruct skip; simpl; [|reflexivity].
    rewrite match_here_nl_free by assumption. reflexivity.
  - assert (Hs' : ~ In newline s) by (intros H; apply Hs; right; exact H).
    destruct skip; simpl.
    + rewrite match_here_nl_free by assumption. simpl. apply IH, Hs'.
    + apply IH, Hs'.
Qed.

Lemma finditer_nl_free (r : regex) (s : pystr) :
  fails_nl_free r -> ~ In newline s -> finditer r s = [].
Proof. intros Hr Hs. apply scan_nl_free; assumption. Qed.

(** *** Substitution *)

(** A character is left in place only where the pattern has no match. *)
Lemma scan_gap (r : regex) (c : ascii) :
  forall s before pos skip,
    In (Gap c) (scan r before pos s skip) ->
    exists before' pos' s', match_here r before' pos' (c :: s') = None
                            \/ exists m, match_here r before' pos' (c :: s') = Some m
                                         /\ length (m_text m) = 0.
Proof.
  induction s as [|a s IH]; intros before pos skip Hin.
  - destruct skip; simpl in Hin; [|contradiction].
    destruct (match_here r before pos []); simpl in Hin.
    + destruct Hin as [H|[]]. discriminate.
    + contradiction.
  - destruct skip; simpl in Hin.
    + destruct (match_here r before pos (a :: s)) as [m|] eqn:E.
      * destruct Hin as [H|Hin]; [discriminate|].
        destruct (length (m_text m)) eqn:L.
        -- destruct Hin as [H|Hin].
           ++ inversion H; subst. exists before, pos, s. right. eauto.
           ++ eapply IH; eassumption.
        -- eapply IH; eassumption.
      * destruct Hin as [H|Hin].
        -- inversion H; subst. exists before, pos, s. left. exact E.
        -- eapply IH; eassumption.
    + eapply IH; eassumption.
Qed.

Lemma sub_chars (r : regex) (repl s : pystr) (c : ascii) :
  In c (sub r repl s) -> In c repl \/ In (Gap c) (tokens r s).
Proof.
  unfold sub. intros H. apply in_flat_map in H.
  destruct H as ([a|m] & Hin & Hc).
  - destruct Hc as [<-|[]]. right. exact Hin.
  - left. exact Hc.
Qed.

Lemma countdown_head (lo n : nat) : exists k l, countdown lo n = k :: l.
Proof. destruct n; simpl; eauto. Qed.

(** "\s+" matches wherever a space stands, and never the empty text. *)
Lemma plus_matches (p : ascii -> bool) (before : option ascii) (pos : nat)
      (c : ascii) (s : pystr) :
  p c = true ->
  exists m, match_here (plus p) before pos (c :: s) = Some m
            /\ 0 < length (m_text m).
Proof.
  intros Hc. unfold match_here, plus.
  change (run (Rep p 1 None) (MState before (c :: s) None))
    with (let n := run_length p None (c :: s) in
          if n <? 1 then []
          else map (fun k => advance k (MState before (c :: s) None))
                   (countdown 1 (n - 1))).
  simpl run_length. rewrite Hc. cbv zeta.
  change (S (run_length p None s) <? 1) with false. cbv iota.
  destruct (countdown_head 1 (S (run_length p None s) - 1)) as (k & l & E).
  assert (Hk : 1 <= k) by (apply (countdown_ge 1 (S (run_length p None s) - 1));
                           rewrite E; left; reflexivity).
  rewrite E. simpl map. eexists. split; [reflexivity|].
  destruct k as [|k]; [lia|]. simpl.
  destruct (advance_suffix k (MState (Some c) s None)) as (pre & Hpre).
  simpl in Hpre.
  assert (length (rest (advance k (MState (Some c) s None))) <= length s).
  { rewrite Hpre at 2. rewrite length_app. lia. }
  cbn [m_text]. rewrite length_firstn. cbn [length rest].
  destruct (length (rest (advance k (MState (Some c) s None)))); lia.
Qed.

Lemma sub_spaces_chars (repl s : pystr) (c : ascii) :
  In c (sub (plus isspace) repl s) -> In c repl \/ isspace c = false.
Proof.
  intros H. apply sub_chars in H. destruct H as [H|H]; [left; exact H|].
  right. apply scan_gap in H.
  destruct H as (before' & pos' & s' & H).
  destruct (isspace c) eqn:Hc; [|reflexivity].
  destruct (plus_matches isspace before' pos' c s' Hc) as (m & Hm & Hlen).
  destruct H as [H|(m' & H & Hz)].
  - congruence.
  - rewrite Hm in H. inversion H; subst. lia.
Qed.

End ReFacts.

(** ** Segmentation *)

Module SegmenterFacts.

Import Re ReSpec ReFacts PyStrFacts Segmenter SegmenterSpec.

Lemma section_patterns_need_newline :
  Forall fails_nl_free section_patterns.
Proof.
  repeat constructor;
    repeat (apply newline_fails || apply cat_fails_right).
Qed.

Lemma find_boundaries_nl_free (t : pystr) :
  ~ In newline t -> find_boundaries t = [].
Proof.
  intros Ht. unfold find_boundaries.
  pose proof section_patterns_need_newline as Hall.
  induction Hall as [|r rs Hr _ IH]; simpl; [reflexivity|].
  rewrite (finditer_nl_free r t Hr Ht). simpl. exact IH.
Qed.

(** The normalized text has no newline left. *)
Lemma normalize_nl_free (raw : pystr) : ~ In newline (normalize raw).
Proof.
  unfold normalize. intros H. apply strip_incl in H.
  apply sub_spaces_chars in H. destruct H as [H|H].
  - simpl in H. destruct H as [H|[]]. discriminate.
  - discriminate.
Qed.

Lemma normalize_stripped (raw : pystr) : strip (normalize raw) = normalize raw.
Proof. apply strip_idempotent. Qed.

Lemma paragraphs_nl_free (t : pystr) (page_num : nat) :
  ~ In newline t ->
  _split_by_paragraphs t page_num =
  if 100 <? length (strip t)
  then [placeholder page_num (py "Section 1") (strip t)]
  else [].
Proof.
  intros Ht. unfold _split_by_paragraphs.
  rewrite (split_absent newline [newline] t Ht). simpl filter.
  destruct (100 <? length (strip t)); reflexivity.
Qed.

Lemma boundaries_of_normalized (raw : pystr) :
  sort_boundaries (find_boundaries (normalize raw)) = [].
Proof.
  rewrite find_boundaries_nl_free by apply normalize_nl_free. reflexivity.
Qed.


(** None of the patterns of the program matches the empty text. *)
Lemma program_patterns_consume :
  Forall consumes
         (section_patterns
            ++ [plus isspace; Refiner.sentence_end; Refiner.term_pattern]).
Proof. repeat constructor; consume. Qed.

(** A page of one short line gives no section; tabs and newlines become
    single spaces. *)
Example short_page_no_section :
  _split_into_sections (py "Opening hours") 2 = [].
Proof. reflexivity. Qed.

Example normalize_collapses :
  normalize ([newline] ++ py "  Opening" ++ [newline; newline] ++ py "hours  ")
  = py "Opening hours".
Proof. reflexivity. Qed.

(** *** The boundary walk and the paragraph split *)

Lemma walk_spans (t : pystr) (page_num : nat) (bs : list (nat * pystr)) :
  forall st,
    map titled (finish t page_num (fold_left (walk_step t page_num) bs st)) =
    map titled (sections st)
    ++ filter (fun c => long_enough (snd c))
              (spans_from t (current_section st) (start_pos st) bs).
Proof.
  induction bs as [|[pos next] bs IH]; intros st.
  - simpl. unfold finish, long_enough.
    destruct (100 <? length (strip (skipn (start_pos st) t))).
    + rewrite map_app. reflexivity.
    + rewrite app_nil_r. reflexivity.
  - cbn [fold_left spans_from]. rewrite IH. cbn [walk_step sections current_section start_pos].
    rewrite filter_app.
    destruct (start_pos st <? pos); cbn [andb].
    + cbn [filter snd]. unfold long_enough at 2.
      destruct (100 <? length (strip (slice t (start_pos st) pos))).
      * rewrite map_app, <- app_assoc. reflexivity.
      * reflexivity.
    + reflexivity.
Qed.

Lemma boundary_sections_spans (t : pystr) (page_num : nat)
      (bs : list (nat * pystr)) :
  map titled (boundary_sections t page_num bs) =
  filter (fun c => long_enough (snd c)) (candidate_spans t bs).
Proof.
  unfold boundary_sections. rewrite walk_spans. reflexivity.
Qed.

Lemma paragraphs_texts (t : pystr) (page_num : nat) :
  map text (_split_by_paragraphs t page_num) =
  firstn 5 (filter long_enough (map strip (PyStr.split [newline; newline] t))).
Proof.
  unfold _split_by_paragraphs.
  set (ps := PyStr.split [newline; newline] t).
  assert (E : map strip (filter (fun p => 100 <? length (strip p)) ps) =
              filter long_enough (map strip ps)).
  { induction ps as [|p ps IH]; simpl; [reflexivity|].
    unfold long_enough at 1.
    destruct (100 <? length (strip p)); simpl; rewrite IH; reflexivity. }
  rewrite E. unfold enumerate.
  rewrite map_enumerate_keeps with (h := fun x => x); [apply map_id | reflexivity].
Qed.

Lemma long_enough_filter_bound (l : list pystr) :
  Forall (fun x => 100 <= length x) (filter long_enough l).
Proof.
  apply Forall_forall. intros x Hx. apply filter_In in Hx.
  destruct Hx as [_ Hx]. unfold long_enough in Hx.
  apply Nat.ltb_lt in Hx. lia.
Qed.

Lemma texts_bound (l : list section) (xs : list pystr) :
  map text l = xs ->
  Forall (fun x => 100 <= length x) xs ->
  Forall (fun s => 100 <= length (text s)) l.
Proof.
  intros <- H. induction l as [|s l IH]; simpl in *; constructor.
  - inversion H; assumption.
  - apply IH. inversion H; assumption.
Qed.

Lemma boundary_sections_bound (t : pystr) (page_num : nat)
      (bs : list (nat * pystr)) :
  Forall (fun s => 100 <= length (text s)) (boundary_sections t page_num bs).
Proof.
  apply texts_bound with (xs := map snd (map titled (boundary_sections t page_num bs))).
  - rewrite map_map. reflexivity.
  - rewrite boundary_sections_spans.
    apply Forall_forall. intros x Hx. apply in_map_iff in Hx.
    destruct Hx as (c & <- & Hc). apply filter_In in Hc.
    destruct Hc as [_ Hc]. unfold long_enough in Hc.
    apply Nat.ltb_lt in Hc. lia.
Qed.

Lemma paragraphs_bound (t : pystr) (page_num : nat) :
  Forall (fun s => 100 <= length (text s)) (_split_by_paragraphs t page_num).
Proof.
  apply texts_bound with (xs := map text (_split_by_paragraphs t page_num));
    [reflexivity|].
  rewrite paragraphs_texts.
  apply Forall_forall. intros x Hx. apply In_firstn in Hx. revert x Hx.
  apply Forall_forall, long_enough_filter_bound.
Qed.

(** C10.  Every section that segmentation emits has a text of at least 100
    characters, on the boundary path and on the paragraph path; the
    sections emitted are the candidate spans that are longer than 100
    characters, so every shorter candidate is dropped. *)
Theorem emitted_sections_at_least_100 :
  (forall raw page_num,
      Forall (fun s => 100 <= length (text s)) (_split_into_sections raw page_num))
  /\ (forall t page_num bs,
         Forall (fun s => 100 <= length (text s)) (boundary_sections t page_num bs)
         /\ map titled (boundary_sections t page_num bs) =
            filter (fun c => 100 <? length (snd c)) (candidate_spans t bs))
  /\ (forall t page_num,
         Forall (fun s => 100 <= length (text s)) (_split_by_paragraphs t page_num)
         /\ map text (_split_by_paragraphs t page_num) =
            firstn 5 (filter (fun x => 100 <? length x)
                             (map strip (PyStr.split [newline; newline] t)))).
Proof.
  split; [|split].
  - intros raw page_num. unfold _split_into_sections.
    destruct (sort_boundaries (find_boundaries (normalize raw))) as [|b bs] eqn:E.
    + apply paragraphs_bound.
    + pose proof (boundary_sections_bound (normalize raw) page_num (b :: bs)) as H.
      destruct (boundary_sections (normalize raw) page_num (b :: bs)).
      * apply paragraphs_bound.
      * exact H.
  - intros t page_num bs. split.
    + apply boundary_sections_bound.
    + apply boundary_sections_spans.
  - intros t page_num. split.
    + apply paragraphs_bound.
    + apply paragraphs_texts.
Qed.

(** *** A page with headings *)

(** The patterns of the program are written for the text as extracted,
    with its line ends: there they find the two headings of [headed_page],
    each twice, and the walk over these boundaries gives the sections
    "INTRODUCTION" and "CONCLUSION".  The program never runs them on this
    text. *)
Example patterns_on_extracted_text :
  sort_boundaries (find_boundaries headed_page) =
    [(0, py "INTRODUCTION"); (0, py "INTRODUCTION");
     (117, py "CONCLUSION"); (117, py "CONCLUSION")]
  /\ map section_title
         (boundary_sections headed_page 1
                            (sort_boundaries (find_boundaries headed_page))) =
     [py "INTRODUCTION"; py "CONCLUSION"].
Proof. split; vm_compute; reflexivity. Qed.

(** C1.  The normalized text of the page [headed_page] holds the
    whitelisted keywords "INTRODUCTION", at offset 0, and "CONCLUSION", at
    offset 118: in the specification's words a heading pattern matches it,
    and the walk over these two boundaries gives two sections, titled
    "INTRODUCTION" and "CONCLUSION".  The program returns one section,
    titled "Section 1", that holds the whole normalized text, headings
    included. *)
Theorem headings_lost_by_normalization :
  keyword_heading_in (normalize headed_page) = true
  /\ firstn 12 (normalize headed_page) = py "INTRODUCTION"
  /\ firstn 10 (skipn 118 (normalize headed_page)) = py "CONCLUSION"
  /\ map fst
         (filter (fun c => long_enough (snd c))
                 (candidate_spans (normalize headed_page)
                                  [(0, py "INTRODUCTION"); (118, py "CONCLUSION")]))
     = [py "INTRODUCTION"; py "CONCLUSION"]
  /\ map section_title (_split_into_sections headed_page 1) = [py "Section 1"]
  /\ map text (_split_into_sections headed_page 1) = [normalize headed_page]
  /\ normalize headed_page
     = py "INTRODUCTION This guide covers budget restaurants and hotels for young travelers on a trip. It is affordable and fun. CONCLUSION Visit the city and enjoy the culture and history of the place for a great trip experience overall today.".
Proof.
  repeat split; vm_compute; reflexivity.
Qed.

End SegmenterFacts.

(** ** Ranking *)

Module RankerFacts.

Import Ranker RankerSpec.

Lemma all_some_length {A : Type} (l : list (option A)) (xs : list A) :
  all_some l = Some xs -> length xs = length l.
Proof.
  revert xs. induction l as [|[x|] l IH]; simpl; intros xs H.
  - inversion H. reflexivity.
  - destruct (all_some l) as [ys|]; [|discriminate].
    inversion H. simpl. rewrite (IH ys); reflexivity.
  - discriminate.
Qed.

Lemma score_sections_length (sims : list float) (sections scored : list section) :
  score_sections sims sections = Some scored ->
  length scored = length sections.
Proof.
  unfold score_sections, enumerate. intros H.
  apply all_some_length in H.
  rewrite H, length_map, enumerate_from_length. reflexivity.
Qed.

(** The ranks written by either loop are the positions, from 1. *)
Lemma ranks_from (score : nat -> section -> float) (l : list section) (k : nat) :
  map importance_rank
      (map (fun '(i, s) => set_rank (score i s) (i + 1) s) (enumerate_from k l)) =
  map Some (seq (k + 1) (length l)).
Proof.
  revert k. induction l as [|s l IH]; intros k; simpl; [reflexivity|].
  rewrite (IH (S k)). reflexivity.
Qed.

Lemma assign_ranks_ranks (l : list section) :
  map importance_rank (assign_ranks l) = map Some (seq 1 (length l)).
Proof. exact (ranks_from (fun _ s => score_of s) l 0). Qed.

Lemma fallback_ranks_ranks (l : list section) :
  map importance_rank (fallback_ranks l) = map Some (seq 1 (length l)).
Proof. exact (ranks_from (fun i _ => (1 / float_of_nat (i + 1))%float) l 0). Qed.

Lemma ranks_length (l : list section) (n : nat) :
  map importance_rank l = map Some (seq 1 n) -> length l = n.
Proof.
  intros H. apply (f_equal (@length _)) in H.
  rewrite !length_map, length_seq in H. exact H.
Qed.

Section WithCollaborators.

Context {C : Collaborators}.

Lemma try_rank_ranks (sections ranked : list section) (query : pystr) :
  try_rank sections query = Some ranked ->
  map importance_rank ranked = map Some (seq 1 (length sections)).
Proof.
  unfold try_rank.
  destruct (tfidf_similarities _) as [sims|]; [|discriminate].
  destruct (score_sections sims sections) as [scored|] eqn:E; [|discriminate].
  intros H. inversion H. rewrite assign_ranks_ranks.
  unfold sort_by_relevance. rewrite stable_sort_length.
  rewrite (score_sections_length _ _ _ E). reflexivity.
Qed.

(** What [rank_sections_by_relevance] truncates has the ranks 1..n. *)
Lemma ranked_or_fallback_ranks (sections : list section) (query : pystr) :
  map importance_rank
      match try_rank sections query with
      | Some ranked => ranked
      | None => fallback_ranks sections
      end =
  map Some (seq 1 (length sections)).
Proof.
  destruct (try_rank sections query) as [ranked|] eqn:E.
  - apply (try_rank_ranks _ _ _ E).
  - apply fallback_ranks_ranks.
Qed.

Lemma rank_ranks (sections : list section) (persona : persona_dict)
      (job_description : pystr) :
  map importance_rank
      (rank_sections_by_relevance sections persona job_description)
  = map Some (seq 1 (Nat.min 15 (length sections))).
Proof.
  unfold rank_sections_by_relevance.
  destruct sections as [|s sections]; [reflexivity|].
  cbv zeta. rewrite map_firstn, ranked_or_fallback_ranks.
  rewrite <- map_firstn, firstn_seq_min. reflexivity.
Qed.

Lemma rank_length (sections : list section) (persona : persona_dict)
      (job_description : pystr) :
  length (rank_sections_by_relevance sections persona job_description)
  = Nat.min 15 (length sections).
Proof. apply ranks_length, rank_ranks. Qed.

(** C9.  The ranker returns min(15, n) of the n sections it is given, and
    their ranks are 1, 2, ..., min(15, n) in this order, whether the
    vectorizer succeeds or raises. *)
Theorem rank_bound (sections : list section) (persona : persona_dict)
        (job_description : pystr) :
  length (rank_sections_by_relevance sections persona job_description)
  = Nat.min 15 (length sections)
  /\ length (rank_sections_by_relevance sections persona job_description) <= 15
  /\ map importance_rank
         (rank_sections_by_relevance sections persona job_description)
     = map Some (seq 1 (Nat.min 15 (length sections))).
Proof.
  repeat split.
  - apply rank_length.
  - rewrite rank_length. apply Nat.le_min_l.
  - apply rank_ranks.
Qed.



(** *** Fields left by an earlier ranking *)

Lemma unranked_content (l l' : list section) :
  map content l = map content l' -> map unranked l = map unranked l'.
Proof.
  revert l'. induction l as [|s l IH]; intros [|s' l'] H; simpl in *;
    try discriminate; [reflexivity|].
  inversion H as [[Hd Hp Ht Hx Hl]].
  rewrite (IH _ Hl). unfold unranked. rewrite Hd, Hp, Ht, Hx. reflexivity.
Qed.

Lemma map_enumerate_unranked {B : Type} (f : nat * section -> B) :
  (forall i s, f (i, unranked s) = f (i, s)) ->
  forall l k,
    map f (enumerate_from k (map unranked l)) = map f (enumerate_from k l).
Proof.
  intros Hf l. induction l as [|s l IH]; intros k; simpl; [reflexivity|].
  rewrite Hf, IH. reflexivity.
Qed.

Lemma score_sections_unranked (sims : list float) (l : list section) :
  score_sections sims (map unranked l) = score_sections sims l.
Proof.
  unfold score_sections, enumerate.
  rewrite map_enumerate_unranked; reflexivity.
Qed.

Lemma fallback_ranks_unranked (l : list section) :
  fallback_ranks (map unranked l) = fallback_ranks l.
Proof.
  unfold fallback_ranks, enumerate.
  rewrite map_enumerate_unranked; reflexivity.
Qed.

Lemma map_text_unranked (l : list section) :
  map text (map unranked l) = map text l.
Proof.
  induction l as [|s l IH]; simpl; [reflexivity|]. rewrite IH. reflexivity.
Qed.

Lemma try_rank_unranked (l : list section) (query : pystr) :
  try_rank (map unranked l) query = try_rank l query.
Proof.
  unfold try_rank. rewrite map_text_unranked.
  destruct (tfidf_similarities _) as [sims|]; [|reflexivity].
  rewrite score_sections_unranked. reflexivity.
Qed.

Lemma rank_unranked (sections : list section) (persona : persona_dict)
      (job_description : pystr) :
  rank_sections_by_relevance (map unranked sections) persona job_description
  = rank_sections_by_relevance sections persona job_description.
Proof.
  destruct sections as [|s l]; [reflexivity|].
  change (map unranked (s :: l)) with (unranked s :: map unranked l).
  unfold rank_sections_by_relevance. cbv zeta.
  change (unranked s :: map unranked l) with (map unranked (s :: l)).
  rewrite try_rank_unranked, fallback_ranks_unranked. reflexivity.
Qed.

Lemma assign_ranks_keeps (l : list section) :
  map content (assign_ranks l) = map content l
  /\ map score_of (assign_ranks l) = map score_of l.
Proof.
  unfold assign_ranks, enumerate.
  split; apply map_enumerate_keeps; reflexivity.
Qed.

Lemma score_sections_content (sims : list float) (l scored : list section) :
  score_sections sims l = Some scored -> map content scored = map content l.
Proof.
  unfold score_sections, enumerate. generalize 0. revert scored.
  induction l as [|s l IH]; intros scored k; simpl.
  - intros H. inversion H. reflexivity.
  - unfold score_section at 1.
    destruct (nth_error sims k); [|discriminate].
    destruct (all_some _) as [xs|] eqn:E; [|discriminate].
    intros H. inversion H. simpl. rewrite (IH _ _ E). reflexivity.
Qed.


End WithCollaborators.

(** *** Examples *)


Example rank_fallback_scores :
  map (fun s => (relevance_score s, importance_rank s))
      (rank_sections_by_relevance (C := raising) (repeat ornaments 4) nobody [])
  = [(Some 1%float, Some 1); (Some 0.5%float, Some 2);
     (Some 0x1.5555555555555p-2%float, Some 3); (Some 0.25%float, Some 4)].
Proof. vm_compute. reflexivity. Qed.

(** Two sections with the same score stay in their input order behind a
    section with a greater score. *)
Example rank_tie_keeps_input_order :
  map (fun s => (section_title s, relevance_score s, importance_rank s))
      (rank_sections_by_relevance
         (C := zero_similarity)
         [plain (py "First") (py "A walk through the old city.");
          plain (py "Second") (py "A place to rest.");
          plain (py "Third") (py "Visit the city and its history.")]
         nobody [])
  = [(py "Third", Some 0x1.3333333333334p-2%float, Some 1);
     (py "First", Some 0.1%float, Some 2);
     (py "Second", Some 0.1%float, Some 3)].
Proof. vm_compute. reflexivity. Qed.


(** *** The query *)

(** C3, amended.  The travel keywords are appended to the expertise
    exactly when the lower-cased role contains "travel" or "planner";
    otherwise the query is built from the unmodified fields, whatever the
    expertise contains.  The query is the last text handed to the
    vectorizer. *)
Theorem query_travel_keywords (persona : persona_dict) (job_description : pystr) :
  (travel_role persona = true ->
   build_query persona job_description
   = get_str (role persona) ++ py " "
     ++ (get_str (expertise persona) ++ py " " ++ travel_keyword_text) ++ py " "
     ++ join (py " ") (get_list (focus_areas persona)) ++ py " "
     ++ job_description)
  /\ (travel_role persona = false ->
      build_query persona job_description
      = get_str (role persona) ++ py " "
        ++ get_str (expertise persona) ++ py " "
        ++ join (py " ") (get_list (focus_areas persona)) ++ py " "
        ++ job_description)
  /\ (forall (C : Collaborators) s sections,
         rank_sections_by_relevance (s :: sections) persona job_description
         = firstn 15
                  match tfidf_similarities
                          (map text (s :: sections)
                               ++ [build_query persona job_description]) with
                  | Some similarities =>
                      match score_sections similarities (s :: sections) with
                      | Some scored => assign_ranks (sort_by_relevance scored)
                      | None => fallback_ranks (s :: sections)
                      end
                  | None => fallback_ranks (s :: sections)
                  end).
Proof.
  unfold travel_role, build_query. repeat split.
  - intros ->. rewrite <- !app_assoc. reflexivity.
  - intros ->. rewrite <- !app_assoc. reflexivity.
  - intros C s sections. unfold rank_sections_by_relevance, try_rank.
    cbv zeta. destruct (tfidf_similarities _) as [sims|]; [|reflexivity].
    destruct (score_sections sims (s :: sections)); reflexivity.
Qed.

Lemma query_travel_keywords_witness :
  build_query travel_planner (py "Plan a trip")
  = py "Travel Planner group trips itinerary activities attractions restaurants hotels transportation budget schedule budget food Plan a trip"
  /\ build_query chef_who_travels (py "Plan a menu")
     = py "Chef travel planner  Plan a menu".
Proof.
  split.
  - exact (proj1 (query_travel_keywords travel_planner (py "Plan a trip")) eq_refl).
  - exact (proj1 (proj2 (query_travel_keywords chef_who_travels (py "Plan a menu")))
                 eq_refl).
Defined.

(** C3 as stated fails: the expertise of this persona contains "travel"
    and "planner", its role does not, and the query has no travel
    keyword. *)
Lemma expertise_does_not_trigger_keywords :
  contains (py "travel") (lower (get_str (expertise chef_who_travels))) = true
  /\ contains (py "planner") (lower (get_str (expertise chef_who_travels))) = true
  /\ build_query chef_who_travels (py "Plan a menu")
     = py "Chef travel planner  Plan a menu"
  /\ contains (py "itinerary") (build_query chef_who_travels (py "Plan a menu"))
     = false.
Proof. repeat split; vm_compute; reflexivity. Qed.

(** *** Boosts *)

Lemma add_hits_times (step : float) (terms : list pystr) (haystack : pystr) :
  forall boost,
    add_hits step terms haystack boost
    = add_times (length (filter (fun term => contains term haystack) terms))
                step boost.
Proof.
  unfold add_hits. induction terms as [|term terms IH]; intros boost; simpl;
    [reflexivity|].
  rewrite IH. destruct (contains term haystack); reflexivity.
Qed.

(** The boost is 0.1 added once for each travel term in the text, then
    0.05 once for each group term, then 0.2 for a title that has one of the
    title terms. *)
Lemma boost_of_steps (s : section) :
  boost_of s
  = let b := add_times (hits_in travel_boost_terms (text s)) 0.1 0 in
    let b := add_times (hits_in group_boost_terms (text s)) 0.05 b in
    if title_hit (section_title s) then (b + 0.2)%float else b.
Proof.
  unfold boost_of. rewrite !add_hits_times. reflexivity.
Qed.

Lemma filter_length_le {A : Type} (p q : A -> bool) (l : list A) :
  (forall x, p x = true -> q x = true) ->
  length (filter p l) <= length (filter q l).
Proof.
  intros H. induction l as [|x l IH]; simpl; [lia|].
  destruct (p x) eqn:Hp.
  - rewrite (H x Hp). simpl. lia.
  - destruct (q x); simpl; lia.
Qed.









End RankerFacts.

(** ** Refinement *)

Module RefinerFacts.

Import Refiner RefinerSpec.

(** The sentences are always all scored and sorted, so the three at the
    head are chosen whenever there is a sentence: the branch of line 219 is
    never taken. *)
Lemma top_sentences_no_fallback (job_terms sentences : list pystr) :
  top_sentences_of job_terms sentences
  = map snd
        (firstn 3
                (stable_sort
                   (fun y x => fst x <? fst y)
                   (map (fun sentence => (sentence_score job_terms sentence, sentence))
                        sentences))).
Proof.
  unfold top_sentences_of. cbv zeta.
  set (scored := map _ sentences).
  destruct sentences as [|s0 rest]; [reflexivity|].
  assert (L : length (stable_sort (fun y x => fst x <? fst y) scored)
              = S (length rest)).
  { rewrite stable_sort_length. unfold scored. simpl. rewrite length_map.
    reflexivity. }
  destruct (stable_sort _ scored) as [|a l]; [discriminate|].
  reflexivity.
Qed.

(** When no sentence has a key term the choice is the first three
    sentences, in their order. *)
Lemma top_sentences_all_zero (job_terms sentences : list pystr) :
  (forall s, In s sentences -> sentence_score job_terms s = 0) ->
  top_sentences_of job_terms sentences = firstn 3 sentences.
Proof.
  intros H. rewrite top_sentences_no_fallback.
  rewrite stable_sort_unordered.
  - rewrite map_firstn, map_map. simpl. rewrite map_id. reflexivity.
  - intros x y Hx Hy.
    apply in_map_iff in Hx. destruct Hx as (sx & <- & Hsx).
    apply in_map_iff in Hy. destruct Hy as (sy & <- & Hsy).
    simpl. rewrite (H _ Hsx), (H _ Hsy). reflexivity.
Qed.

(** C5.  The section [museum] has four sentences longer than 20
    characters, none of which contains a key term of the job "Plan a trip";
    the refined text is made of the first three of them, not of the first
    two. *)
Theorem zero_score_keeps_three_sentences :
  job_terms_of (lower (py "Plan a trip")) = [py "plan"; py "trip"]
  /\ sentences_of (text museum)
     = [py "The museum opens at nine every morning";
        py "Tickets are sold at the main entrance gate";
        py "Guided tours start from the central hall";
        py "Lunch is served in the garden cafe daily"]
  /\ map (sentence_score [py "plan"; py "trip"]) (sentences_of (text museum))
     = [0; 0; 0; 0]
  /\ refine_sections [museum] (JStr (py "Plan a trip"))
     = Ok [mkRefined
             (py "guide.pdf") 3 (py "Museum")
             (py "The museum opens at nine every morning. Tickets are sold at the main entrance gate. Guided tours start from the central hall.")
             (Some 1)].
Proof. repeat split; vm_compute; reflexivity. Qed.

(** Sentences with key terms come first, the others keep their order. *)
Example refine_orders_by_score :
  refine_sections [harbour] (JStr (py "Plan a trip"))
  = Ok [mkRefined
          (py "guide.pdf") 4 (py "Harbour")
          (py "Plan the trip around the ferry timetable. A trip to the lighthouse takes one afternoon. The harbour is busy in the early morning.")
          (Some 2)].
Proof. vm_compute. reflexivity. Qed.

(** A ranked section list is refined entry by entry. *)
Lemma collect_ok {A B : Type} (f : A -> B) (g : A -> result B) (l : list A) :
  (forall x, In x l -> g x = Ok (f x)) -> collect (map g l) = Ok (map f l).
Proof.
  induction l as [|x l IH]; intros H; simpl; [reflexivity|].
  rewrite (H x (or_introl eq_refl)). cbn [bind].
  rewrite IH by (intros y Hy; apply H; right; exact Hy). reflexivity.
Qed.

Lemma refine_sections_ranked (sections : list section) (t : pystr) :
  (forall s, In s sections -> importance_rank s <> None) ->
  refine_sections sections (JStr t)
  = Ok (map (refine_section (job_terms_of (lower t))) sections).
Proof.
  intros H. unfold refine_sections. cbn [lower_of bind].
  apply collect_ok. intros s Hs. unfold refine_entry.
  destruct (importance_rank s) eqn:E; [reflexivity|].
  exfalso. exact (H s Hs E).
Qed.

(** The first section without a rank stops the loop. *)
Lemma collect_raise {A B : Type} (f : A -> B) (g : A -> result B)
      (before behind : list A) (x : A) (e : exn) :
  (forall y, In y before -> g y = Ok (f y)) -> g x = Raise e ->
  collect (map g (before ++ x :: behind)) = Raise e.
Proof.
  intros Hb Hx. induction before as [|y l IH]; simpl.
  - rewrite Hx. reflexivity.
  - rewrite (Hb y (or_introl eq_refl)). cbn [bind].
    rewrite IH by (intros z Hz; apply Hb; right; exact Hz). reflexivity.
Qed.

End RefinerFacts.

(** ** The pipeline *)

Module OrchestratorFacts.

Import Ranker Refiner Orchestrator RankerSpec OrchestratorSpec.

Section WithCollaborators.

Context {C : Collaborators}.

(** Every section that the ranker returns has a rank. *)
Lemma rank_ranked (sections : list section) (persona : persona_dict)
      (job_description : pystr) (x : section) :
  In x (rank_sections_by_relevance sections persona job_description) ->
  importance_rank x <> None.
Proof.
  intros Hx E. apply (in_map importance_rank) in Hx.
  rewrite RankerFacts.rank_ranks, E in Hx.
  apply in_map_iff in Hx. destruct Hx as (k & Hk & _). discriminate.
Qed.

(** The pipeline for a job description that resolves to a string. *)
Lemma run_string_job (cfg : config) (t : pystr) (info : json) :
  read_job cfg = Ok (JStr t, info) ->
  run_pipeline cfg = Ok (output_for (documents cfg) (persona cfg) t info).
Proof.
  intros H. unfold run_pipeline. rewrite H. cbn [bind format_value].
  rewrite RefinerFacts.refine_sections_ranked by (intros s; apply rank_ranked).
  reflexivity.
Qed.

(** In the old format a job given as an object is itself taken for the
    description: [refine_sections] raises on [job_description.lower()] and
    the result is the error result, whatever the documents are. *)
Lemma job_object_old_format (docs : list pystr) (who : persona_dict)
      (d : list (pystr * json)) :
  process_documents (mkConfig docs who (JObj d) None) = error_output no_lower.
Proof. reflexivity. Qed.

(** C4, amended.  A job given as a string is the job description of the
    whole pipeline and of the metadata, with or without [challenge_info];
    a job given as an object with a [task] string is resolved to that
    string, with the same result as the string itself, when the
    configuration has [challenge_info]. *)
Theorem job_forms (docs : list pystr) (who : persona_dict) :
  (forall t info,
      process_documents (mkConfig docs who (JStr t) (Some info))
      = output_for docs who t info
      /\ process_documents (mkConfig docs who (JStr t) None)
         = output_for docs who t (JObj []))
  /\ (forall d t info,
         lookup (py "task") d = Ok (JStr t) ->
         process_documents (mkConfig docs who (JObj d) (Some info))
         = output_for docs who t info
         /\ process_documents (mkConfig docs who (JObj d) (Some info))
            = process_documents (mkConfig docs who (JStr t) (Some info))).
Proof.
  assert (S1 : forall t info,
             process_documents (mkConfig docs who (JStr t) (Some info))
             = output_for docs who t info).
  { intros t info. unfold process_documents.
    rewrite (run_string_job _ t info) by reflexivity. reflexivity. }
  split.
  - intros t info. split; [apply S1|].
    unfold process_documents.
    rewrite (run_string_job _ t (JObj [])) by reflexivity. reflexivity.
  - intros d t info H.
    assert (E : process_documents (mkConfig docs who (JObj d) (Some info))
                = output_for docs who t info).
    { unfold process_documents. rewrite (run_string_job _ t info); [reflexivity|].
      unfold read_job. cbn [challenge_info job_to_be_done bind]. rewrite H.
      reflexivity. }
    split; [exact E | rewrite E, S1; reflexivity].
Qed.

End WithCollaborators.

Lemma job_forms_witness :
  process_documents (C := raising)
                    (mkConfig [] travel_planner trip_task (Some challenge))
  = mkOutput [] travel_planner (JStr (py "Plan a trip"))
             (Some challenge) None [] [].
Proof.
  exact (proj1 (proj2 (job_forms (C := raising) [] travel_planner)
                      [(py "task", JStr (py "Plan a trip"))] (py "Plan a trip")
                      challenge eq_refl)).
Defined.

(** C4 as stated fails: without [challenge_info] the job object is not
    resolved, and the result is the error result with an empty job
    description. *)
Lemma job_object_needs_challenge_info :
  process_documents (C := raising)
                    (mkConfig [] travel_planner trip_task None)
  = mkOutput [] (mkPersona None None None) (JStr []) None (Some no_lower) [] []
  /\ meta_job_to_be_done
       (process_documents (C := raising)
                          (mkConfig [] travel_planner trip_task
                                    (Some challenge)))
     = JStr (py "Plan a trip").
Proof. split; reflexivity. Qed.

End OrchestratorFacts.

(** * Further properties *)

(** ** Lists and sorting *)

Lemma sorted_firstn_skipn {A : Type} (R : A -> A -> Prop) (n : nat) (l : list A) :
  StronglySorted R l ->
  forall a b, In a (firstn n l) -> In b (skipn n l) -> R a b.
Proof.
  intros Hs. revert n. induction Hs as [|x l Hs IH Hx]; intros n a b Ha Hb.
  - destruct n; contradiction.
  - destruct n as [|n]; [contradiction|]. simpl in Ha, Hb.
    destruct Ha as [<-|Ha].
    + revert b Hb. apply Forall_forall.
      rewrite <- (firstn_skipn n l) in Hx. apply Forall_app in Hx. apply Hx.
    + eapply IH; eassumption.
Qed.

Lemma sorted_firstn {A : Type} (R : A -> A -> Prop) (n : nat) (l : list A) :
  StronglySorted R l -> StronglySorted R (firstn n l).
Proof.
  intros Hs. revert n. induction Hs as [|x l Hs IH Hx]; intros [|n]; simpl;
    try constructor.
  - apply IH.
  - apply Forall_forall. intros y Hy. apply In_firstn in Hy.
    revert y Hy. apply Forall_forall. exact Hx.
Qed.

Lemma Forall_map_eq {A B : Type} (f : A -> B) (P : B -> Prop) :
  forall l l' : list A,
    map f l = map f l' ->
    Forall (fun a => P (f a)) l -> Forall (fun a => P (f a)) l'.
Proof.
  intros l l' E H. revert l' E.
  induction H as [|a l Ha H IH]; intros [|a' l'] E; simpl in E;
    try discriminate; constructor.
  - injection E as Ea El. cbv beta. rewrite <- Ea. exact Ha.
  - injection E as Ea El. apply IH. exact El.
Qed.

Lemma sorted_map_eq {A B : Type} (f : A -> B) (Q : B -> B -> Prop) :
  forall l l' : list A,
    map f l = map f l' ->
    StronglySorted (fun a b => Q (f a) (f b)) l ->
    StronglySorted (fun a b => Q (f a) (f b)) l'.
Proof.
  intros l l' E Hs. revert l' E.
  induction Hs as [|a l Hs IH Ha]; intros [|a' l'] E; simpl in E;
    try discriminate; constructor.
  - injection E as Ea El. apply IH. exact El.
  - injection E as Ea El.
    apply (Forall_map_eq f (fun y => Q (f a') y) l l' El).
    rewrite <- Ea. exact Ha.
Qed.

Lemma map_enumerate_index {A B D : Type} (g : B -> D) (f : nat * A -> B)
      (h : nat -> D) :
  (forall i x, g (f (i, x)) = h i) ->
  forall l k, map g (map f (enumerate_from k l)) = map h (seq k (length l)).
Proof.
  intros Hf l. induction l as [|x l IH]; intros k; simpl; [reflexivity|].
  rewrite Hf, IH. reflexivity.
Qed.

Lemma enumerate_map_Forall {A B : Type} (f : nat * A -> B) (P : B -> Prop)
      (l : list A) (k : nat) :
  (forall i x, P (f (i, x))) -> Forall P (map f (enumerate_from k l)).
Proof.
  intros H. revert k. induction l as [|x l IH]; intros k; simpl; constructor; auto.
Qed.

Lemma Forall_map_enumerate {A B : Type} (f : nat * A -> B) (Q : A -> Prop)
      (P : B -> Prop) (l : list A) :
  (forall i x, Q x -> P (f (i, x))) ->
  Forall Q l -> forall k, Forall P (map f (enumerate_from k l)).
Proof.
  intros H Hl. induction Hl as [|x l Hx _ IH]; intros k;
    cbn [enumerate_from map]; constructor; auto.
Qed.

Lemma filter_filter {A : Type} (f : A -> bool) (l : list A) :
  filter f (filter f l) = filter f l.
Proof.
  induction l as [|x l IH]; simpl; [reflexivity|].
  destruct (f x) eqn:E; simpl; [rewrite E, IH|]; auto.
Qed.

Lemma filter_none {A : Type} (f : A -> bool) (l : list A) :
  Forall (fun x => f x = false) l -> filter f l = [].
Proof.
  induction 1 as [|x l Hx _ IH]; simpl; [reflexivity|]. rewrite Hx. exact IH.
Qed.

Section StableSortOrder.

Variable A : Type.
Variable before : A -> A -> bool.

Lemma insert_permutation (x : A) (l : list A) :
  Permutation (x :: l) (insert before x l).
Proof.
  induction l as [|y l IH]; simpl; [apply Permutation_refl|].
  destruct (before y x); [|apply Permutation_refl].
  eapply perm_trans; [apply perm_swap|]. apply perm_skip. exact IH.
Qed.

Lemma stable_sort_permutation (l : list A) :
  Permutation l (stable_sort before l).
Proof.
  induction l as [|x l IH]; simpl; [apply perm_nil|].
  eapply perm_trans; [apply perm_skip, IH|]. apply insert_permutation.
Qed.

(** The elements on which [before] is an order: nothing comes before
    what must come before it, and "need not come before" is transitive. *)
Variable ok : A -> Prop.
Hypothesis before_asym :
  forall x y, ok x -> ok y -> before y x = true -> before x y = false.
Hypothesis before_negtrans :
  forall x y z, ok x -> ok y -> ok z ->
                before z y = false -> before y x = false -> before z x = false.

Lemma insert_sorted (x : A) (l : list A) :
  ok x -> Forall ok l ->
  StronglySorted (in_order A before) l -> StronglySorted (in_order A before) (insert before x l).
Proof.
  intros Hx Hl Hs. induction Hs as [|y l Hs IH Hy]; simpl.
  - constructor; constructor.
  - inversion Hl as [|? ? Hoy Hol]; subst.
    destruct (before y x) eqn:E.
    + constructor; [apply IH, Hol|].
      apply Forall_forall. intros z Hz. apply insert_In in Hz.
      destruct Hz as [->|Hz].
      * apply before_asym; assumption.
      * revert z Hz. apply Forall_forall. exact Hy.
    + constructor; [constructor; assumption|].
      constructor; [exact E|].
      apply Forall_forall. intros z Hz.
      pose proof (proj1 (Forall_forall _ _) Hol z Hz) as Hoz.
      pose proof (proj1 (Forall_forall _ _) Hy z Hz) as Hyz.
      apply before_negtrans with (y := y); assumption.
Qed.

Lemma stable_sort_ok (l : list A) : Forall ok l -> Forall ok (stable_sort before l).
Proof.
  intros H. apply Forall_forall. intros x Hx. apply stable_sort_In in Hx.
  revert x Hx. apply Forall_forall. exact H.
Qed.

Lemma stable_sort_sorted (l : list A) :
  Forall ok l -> StronglySorted (in_order A before) (stable_sort before l).
Proof.
  induction l as [|x l IH]; intros H; simpl; [constructor|].
  inversion H; subst. apply insert_sorted; auto using stable_sort_ok.
Qed.

End StableSortOrder.

(** ** Matches and splits *)

Module ReScanFacts.
Import Re ReSpec ReFacts.

Lemma advance_rest (k : nat) :
  forall st, rest (advance k st) = skipn k (rest st).
Proof.
  induction k as [|k IH]; intros st; simpl; [reflexivity|].
  destruct (rest st) as [|c s'] eqn:E; [exact E|].
  rewrite IH. reflexivity.
Qed.

Lemma run_length_firstn (p : ascii -> bool) (s : pystr) :
  forall hi k, k <= run_length p hi s ->
               Forall (fun c => p c = true) (firstn k s).
Proof.
  induction s as [|c s IH]; intros hi k Hk.
  - destruct k; constructor.
  - destruct k as [|k]; [constructor|].
    destruct hi as [[|n]|]; simpl in Hk; try lia;
      destruct (p c) eqn:Hc; try lia; simpl; constructor; try exact Hc.
    + apply (IH (Some n)). simpl. lia.
    + apply (IH None). lia.
Qed.

(** What a repetition takes is made of characters of its class, at least
    [lo] of them. *)
Lemma run_rep_prefix (p : ascii -> bool) (lo : nat) (hi : option nat)
      (st st' : mstate) :
  In st' (run (Rep p lo hi) st) ->
  exists pre, rest st = pre ++ rest st'
              /\ Forall (fun c => p c = true) pre /\ lo <= length pre.
Proof.
  intros H. simpl in H.
  destruct (run_length p hi (rest st) <? lo) eqn:E; [contradiction|].
  apply Nat.ltb_ge in E.
  apply in_map_iff in H. destruct H as (k & <- & Hk).
  pose proof (countdown_ge _ _ _ Hk) as Hlo.
  pose proof (countdown_le _ _ _ Hk) as Hhi.
  pose proof (run_length_le p (rest st) hi) as Hlen.
  exists (firstn k (rest st)). rewrite advance_rest. split; [|split].
  - symmetry. apply firstn_skipn.
  - apply run_length_firstn with (hi := hi). lia.
  - rewrite length_firstn. lia.
Qed.

(** Every match found by a scan is the match at some position of the
    text. *)
Lemma scan_hit (r : regex) (m : rmatch) :
  forall s before pos skip,
    In (Hit m) (scan r before pos s skip) ->
    exists before' pos' pre s',
      s = pre ++ s' /\ match_here r before' pos' s' = Some m.
Proof.
  induction s as [|a s IH]; intros before pos skip Hin.
  - destruct skip; simpl in Hin; [|contradiction].
    destruct (match_here r before pos []) as [m'|] eqn:E; simpl in Hin.
    + destruct Hin as [H|[]]. inversion H; subst.
      exists before, pos, [], []. split; [reflexivity | exact E].
    + contradiction.
  - assert (Hrec : forall b p k, In (Hit m) (scan r b p s k) ->
                     exists before' pos' pre s',
                       a :: s = pre ++ s' /\ match_here r before' pos' s' = Some m).
    { intros b p k H. destruct (IH _ _ _ H) as (b' & p' & pre & s' & E1 & E2).
      exists b', p', (a :: pre), s'. split; [simpl; congruence | exact E2]. }
    destruct skip; simpl in Hin; [|eapply Hrec; eassumption].
    destruct (match_here r before pos (a :: s)) as [m'|] eqn:E.
    + destruct Hin as [H|Hin].
      * inversion H; subst. exists before, pos, [], (a :: s).
        split; [reflexivity | exact E].
      * destruct (length (m_text m')).
        -- destruct Hin as [H|Hin]; [discriminate|]. eapply Hrec; eassumption.
        -- eapply Hrec; eassumption.
    + destruct Hin as [H|Hin]; [discriminate|]. eapply Hrec; eassumption.
Qed.

Lemma hits_In (m : rmatch) (ts : list token) : In m (hits ts) -> In (Hit m) ts.
Proof.
  induction ts as [|[c|m'] ts IH]; simpl; [tauto| |].
  - intros H. right. exact (IH H).
  - intros [->|H]; [left; reflexivity | right; exact (IH H)].
Qed.

(** A character outside the matches of "[class]+" is not of the class. *)
Lemma plus_gap (p : ascii -> bool) (s : pystr) (c : ascii) :
  In (Gap c) (tokens (plus p) s) -> p c = false.
Proof.
  intros H. apply scan_gap in H.
  destruct H as (before' & pos' & s' & H).
  destruct (p c) eqn:Hc; [|reflexivity].
  destruct (plus_matches p before' pos' c s' Hc) as (m & Hm & Hlen).
  destruct H as [H|(m' & H & Hz)].
  - congruence.
  - rewrite Hm in H. inversion H; subst. lia.
Qed.

Lemma pieces_chars (ts : list token) :
  forall cur piece c,
    In piece (pieces ts cur) -> In c piece -> In c cur \/ In (Gap c) ts.
Proof.
  induction ts as [|[a|m] ts IH]; intros cur piece c Hp Hc; simpl in Hp.
  - destruct Hp as [<-|[]]. left. apply in_rev. exact Hc.
  - destruct (IH _ _ _ Hp Hc) as [[<-|H]|H].
    + right. left. reflexivity.
    + left. exact H.
    + right. right. exact H.
  - destruct Hp as [<-|Hp].
    + left. apply in_rev. exact Hc.
    + destruct (IH _ _ _ Hp Hc) as [[]|H]. right. right. exact H.
Qed.

(** The pieces of a split on "[class]+" have no character of the class. *)
Lemma split_plus_chars (p : ascii -> bool) (s piece : pystr) (c : ascii) :
  In piece (Re.split (plus p) s) -> In c piece -> p c = false.
Proof.
  intros Hp Hc. destruct (pieces_chars _ _ _ _ Hp Hc) as [[]|H].
  exact (plus_gap p s c H).
Qed.

End ReScanFacts.

(** ** Normalization *)

Module NormalizeFacts.
Import Re ReSpec ReFacts ReScanFacts Segmenter SegmenterSpec SegmenterFacts PyStrFacts NormalizeSpec.

Lemma countdown_first (lo n : nat) :
  exists l, countdown lo n = (lo + n) :: l.
Proof. destruct n; simpl; eexists; [rewrite Nat.add_0_r|]; reflexivity. Qed.

(** The match of "\s+" at a space is the whole run of spaces. *)
Lemma plus_match_length (p : ascii -> bool) (before : option ascii) (pos : nat)
      (c : ascii) (s : pystr) :
  p c = true ->
  exists m, match_here (plus p) before pos (c :: s) = Some m
            /\ length (m_text m) = S (run_length p None s).
Proof.
  intros Hc. unfold match_here, plus.
  change (run (Rep p 1 None) (MState before (c :: s) None))
    with (let n := run_length p None (c :: s) in
          if n <? 1 then []
          else map (fun k => advance k (MState before (c :: s) None))
                   (countdown 1 (n - 1))).
  simpl run_length. rewrite Hc. cbv zeta.
  change (S (run_length p None s) <? 1) with false. cbv iota.
  replace (S (run_length p None s) - 1) with (run_length p None s) by lia.
  destruct (countdown_first 1 (run_length p None s)) as (l & ->).
  simpl map. eexists. split; [reflexivity|].
  cbn [m_text]. rewrite advance_rest. cbn [rest].
  pose proof (run_length_le p s None) as Hle.
  rewrite length_firstn, length_skipn. cbn [length]. lia.
Qed.

Lemma plus_no_match (p : ascii -> bool) (before : option ascii) (pos : nat)
      (c : ascii) (s : pystr) :
  p c = false -> match_here (plus p) before pos (c :: s) = None.
Proof. intros Hc. unfold match_here, plus. simpl. rewrite Hc. reflexivity. Qed.

Lemma scan_cons_0 (r : regex) (before : option ascii) (pos : nat) (c : ascii)
      (s : pystr) :
  scan r before pos (c :: s) 0
  = match match_here r before pos (c :: s) with
    | Some m =>
        Hit m :: match length (m_text m) with
                 | O => Gap c :: scan r (Some c) (S pos) s 0
                 | S k => scan r (Some c) (S pos) s k
                 end
    | None => Gap c :: scan r (Some c) (S pos) s 0
    end.
Proof. reflexivity. Qed.

Lemma scan_cons_S (r : regex) (before : option ascii) (pos : nat) (c : ascii)
      (s : pystr) (k : nat) :
  scan r before pos (c :: s) (S k) = scan r (Some c) (S pos) s k.
Proof. reflexivity. Qed.

Lemma scan_squeeze (s : pystr) :
  forall before pos,
    render (py " ") (scan (plus isspace) before pos s 0) = squeeze false s
    /\ render (py " ")
              (scan (plus isspace) before pos s (run_length isspace None s))
       = squeeze true s.
Proof.
  induction s as [|c s IH]; intros before pos.
  - split; reflexivity.
  - destruct (IH (Some c) (S pos)) as [IH0 IH1].
    destruct (isspace c) eqn:Hc.
    + split.
      * rewrite scan_cons_0.
        destruct (plus_match_length isspace before pos c s Hc) as (m & -> & Hlen).
        rewrite Hlen.
        change (render (py " ") (Hit m :: ?ts)) with (py " " ++ render (py " ") ts).
        rewrite IH1. simpl. rewrite Hc. reflexivity.
      * simpl run_length. rewrite Hc, scan_cons_S, IH1. simpl. rewrite Hc.
        reflexivity.
    + assert (E : render (py " ") (scan (plus isspace) before pos (c :: s) 0)
                  = squeeze false (c :: s)).
      { rewrite scan_cons_0, (plus_no_match isspace before pos c s Hc).
        change (render (py " ") (Gap c :: ?ts)) with (c :: render (py " ") ts).
        rewrite IH0. simpl. rewrite Hc. reflexivity. }
      split; [exact E|].
      simpl run_length. rewrite Hc, E. simpl. rewrite Hc. reflexivity.
Qed.

(** [re.sub("\s+", " ", t)] is the single pass. *)
Lemma sub_squeeze (t : pystr) : sub (plus isspace) (py " ") t = squeeze false t.
Proof. exact (proj1 (scan_squeeze t None 0)). Qed.

Lemma squeeze_length (s : pystr) : forall b, length (squeeze b s) <= length s.
Proof.
  induction s as [|c s IH]; intros b; simpl; [lia|].
  pose proof (IH true). pose proof (IH false).
  destruct (isspace c); [destruct b|]; simpl; lia.
Qed.

Lemma squeeze_tidy (s : pystr) : forall b, tidy b (squeeze b s) = true.
Proof.
  induction s as [|c s IH]; intros b; simpl; [reflexivity|].
  destruct (isspace c) eqn:Hc.
  - destruct b; [apply IH|]. simpl. apply IH.
  - simpl. rewrite Hc. apply IH.
Qed.

Lemma tidy_fixed (s : pystr) : forall b, tidy b s = true -> squeeze b s = s.
Proof.
  induction s as [|c s IH]; intros b H; simpl in *; [reflexivity|].
  destruct (isspace c).
  - apply andb_prop in H. destruct H as [H H2].
    apply andb_prop in H. destruct H as [H0 H1].
    apply Ascii.eqb_eq in H0. apply negb_true_iff in H1. subst.
    rewrite (IH true H2). reflexivity.
  - rewrite (IH false H). reflexivity.
Qed.

Lemma tidy_lstrip (s : pystr) : forall b b', tidy b s = true -> tidy b' (lstrip s) = true.
Proof.
  induction s as [|c s IH]; intros b b' H; simpl in *; [reflexivity|].
  destruct (isspace c) eqn:Hc.
  - apply andb_prop in H. destruct H as [_ H]. apply (IH true). exact H.
  - simpl. rewrite Hc. exact H.
Qed.

Lemma tidy_prefix (s q : pystr) : forall b, tidy b (s ++ q) = true -> tidy b s = true.
Proof.
  induction s as [|c s IH]; intros b H; simpl in *; [reflexivity|].
  destruct (isspace c).
  - apply andb_prop in H. destruct H as [H1 H2].
    rewrite H1, (IH true H2). reflexivity.
  - apply (IH false H).
Qed.

Lemma tidy_strip (s : pystr) : tidy false s = true -> tidy false (strip s) = true.
Proof.
  intros H. unfold strip.
  pose proof (tidy_lstrip s false false H) as Hl.
  destruct (rstrip_decompose (lstrip s)) as (q & Hq & _).
  rewrite Hq in Hl. exact (tidy_prefix _ _ _ Hl).
Qed.

Lemma normalize_is_tidy (raw : pystr) : tidy false (normalize raw) = true.
Proof. unfold normalize. rewrite sub_squeeze. apply tidy_strip, squeeze_tidy. Qed.

(** X1.  The normalized text: whitespace only as single plain spaces
    between other characters, none at either end, and no longer than the
    raw text. *)
Theorem normalize_tidy (raw : pystr) :
  tidy false (normalize raw) = true
  /\ not_space_at_head (normalize raw)
  /\ not_space_at_head (rev (normalize raw))
  /\ length (normalize raw) <= length raw.
Proof.
  split; [apply normalize_is_tidy|].
  unfold normalize. rewrite sub_squeeze. split; [|split].
  - unfold not_space_at_head, strip. apply rstrip_keeps_head, lstrip_head.
  - unfold not_space_at_head, strip, rstrip. rewrite rev_involutive.
    apply lstrip_head.
  - pose proof (strip_length (squeeze false raw)).
    pose proof (squeeze_length raw false). lia.
Qed.

Lemma lstrip_squeeze (s : pystr) :
  forall b, lstrip (squeeze b s) = squeeze false (lstrip s).
Proof.
  induction s as [|c s IH]; intros b; simpl; [reflexivity|].
  destruct (isspace c) eqn:Hc.
  - destruct b; [apply IH|]. simpl. apply IH.
  - simpl. rewrite Hc. reflexivity.
Qed.

Lemma squeeze_app (x y : pystr) :
  forall b, squeeze b (x ++ y) = squeeze b x ++ squeeze (ends_in_space b x) y.
Proof.
  induction x as [|c x IH]; intros b; simpl; [reflexivity|].
  destruct (isspace c); [destruct b|]; simpl; rewrite IH; reflexivity.
Qed.

Lemma ends_in_space_last (x : pystr) (c : ascii) :
  forall b, ends_in_space b (x ++ [c]) = isspace c.
Proof. induction x as [|a x IH]; intros b; simpl; [reflexivity | apply IH]. Qed.

Lemma squeeze_spaces (q : pystr) :
  Forall (fun c => isspace c = true) q ->
  forall b, Forall (fun c => isspace c = true) (squeeze b q).
Proof.
  induction 1 as [|c q Hc _ IH]; intros b; simpl; [constructor|].
  rewrite Hc. destruct b; [apply IH|]. constructor; [reflexivity | apply IH].
Qed.

Lemma lstrip_spaces_app (p s : pystr) :
  Forall (fun c => isspace c = true) p -> lstrip (p ++ s) = lstrip s.
Proof.
  induction 1 as [|c p Hc _ IH]; simpl; [reflexivity|]. rewrite Hc. exact IH.
Qed.

Lemma rstrip_app_spaces (x q : pystr) :
  Forall (fun c => isspace c = true) q -> rstrip (x ++ q) = rstrip x.
Proof.
  intros H. unfold rstrip. rewrite rev_app_distr, lstrip_spaces_app;
    [reflexivity | apply Forall_rev, H].
Qed.

Lemma rstrip_last (x : pystr) (c : ascii) :
  isspace c = false -> rstrip (x ++ [c]) = x ++ [c].
Proof.
  intros Hc. unfold rstrip. rewrite rev_app_distr. simpl. rewrite Hc.
  simpl. rewrite rev_involutive. reflexivity.
Qed.

Lemma rstrip_squeeze (v : pystr) :
  rstrip (squeeze false v) = squeeze false (rstrip v).
Proof.
  destruct (rstrip_decompose v) as (q & Hq & Hall).
  pose proof (lstrip_head (rev v)) as Hh.
  fold (rev (rev (lstrip (rev v)))) in Hh. 
  set (w := rstrip v) in *. rewrite Hq at 1. rewrite squeeze_app.
  rewrite rstrip_app_spaces by (apply squeeze_spaces, Hall).
  destruct (rev w) as [|c r] eqn:E.
  - apply (f_equal (@rev _)) in E. rewrite rev_involutive in E. rewrite E.
    reflexivity.
  - apply (f_equal (@rev _)) in E. rewrite rev_involutive in E. simpl in E.
    assert (Hc : isspace c = false).
    { unfold w, rstrip in E. apply (f_equal (@rev _)) in E.
      rewrite rev_involutive, rev_app_distr, rev_involutive in E. simpl in E.
      rewrite E in Hh. exact Hh. }
    rewrite E, squeeze_app. simpl. rewrite Hc. apply rstrip_last. exact Hc.
Qed.

Lemma normalize_squeeze_strip (raw : pystr) :
  normalize raw = squeeze false (strip raw).
Proof.
  unfold normalize, strip. rewrite sub_squeeze, lstrip_squeeze, rstrip_squeeze.
  reflexivity.
Qed.

Lemma normalize_le_strip (raw : pystr) : length (normalize raw) <= length (strip raw).
Proof. rewrite normalize_squeeze_strip. apply squeeze_length. Qed.

(** X2.  Normalizing is the single pass [squeeze] over the stripped text;
    whitespace around the raw text makes no difference, and normalizing a
    normalized text changes nothing. *)
Theorem normalize_idempotent (raw : pystr) :
  normalize raw = squeeze false (strip raw)
  /\ normalize (strip raw) = normalize raw
  /\ normalize (normalize raw) = normalize raw.
Proof.
  split; [apply normalize_squeeze_strip|]. split.
  - rewrite !normalize_squeeze_strip, strip_idempotent. reflexivity.
  - unfold normalize at 1.
    rewrite sub_squeeze, (tidy_fixed _ _ (normalize_is_tidy raw)).
    apply normalize_stripped.
Qed.

(** *** The page as one section *)


End NormalizeFacts.

(** ** Boundaries and paragraphs *)

Module SplitFacts.
Import Re Segmenter SegmenterSpec SegmenterFacts PyStrFacts.

(** X3.  The boundaries come out of the sort in the order of their
    positions, none lost and none added; boundaries at the same position
    keep the order in which the patterns found them. *)
Theorem sort_boundaries_ordered (bs : list (nat * pystr)) :
  StronglySorted (fun a b => fst a <= fst b) (sort_boundaries bs)
  /\ Permutation bs (sort_boundaries bs)
  /\ (forall a b, precedes a b bs -> fst a <= fst b ->
                  precedes a b (sort_boundaries bs)).
Proof.
  unfold sort_boundaries. split; [|split].
  - assert (Hs : StronglySorted (in_order (nat * pystr) (fun y x => fst y <? fst x))
                   (stable_sort (fun y x => fst y <? fst x) bs)).
    { apply (stable_sort_sorted (nat * pystr) (fun y x => fst y <? fst x)
                                (fun _ => True)).
      - intros x y _ _ Hlt. apply Nat.ltb_lt in Hlt. apply Nat.ltb_ge. lia.
      - intros x y z _ _ _ H1 H2. apply Nat.ltb_ge in H1, H2. apply Nat.ltb_ge. lia.
      - apply Forall_forall. intros; exact I. }
    induction Hs as [|a l Hs IH Ha]; constructor; [exact IH|].
    apply Forall_forall. intros b Hb.
    pose proof (proj1 (Forall_forall _ _) Ha b Hb) as Hab.
    unfold in_order in Hab. apply Nat.ltb_ge in Hab. exact Hab.
  - apply stable_sort_permutation.
  - intros a b Hp Hle. apply stable_sort_stable; [exact Hp|].
    apply Nat.ltb_ge. exact Hle.
Qed.

Lemma sort_boundaries_ordered_witness :
  precedes (0, py "INTRODUCTION") (0, py "Introduction")
           (sort_boundaries [(117, py "CONCLUSION"); (0, py "INTRODUCTION");
                             (0, py "Introduction")]).
Proof.
  apply (proj2 (proj2 (sort_boundaries_ordered
                         [(117, py "CONCLUSION"); (0, py "INTRODUCTION");
                          (0, py "Introduction")]))).
  - apply precedes_later, precedes_here. left. reflexivity.
  - simpl. lia.
Defined.

(** X4.  The fallback numbers what it keeps: at most five sections, titled
    "Section 1", "Section 2", ... in order, all on the given page and
    under the document name "placeholder", each holding a stripped
    paragraph of more than 100 characters. *)
Theorem paragraphs_numbered (t : pystr) (page_num : nat) :
  length (_split_by_paragraphs t page_num) <= 5
  /\ map section_title (_split_by_paragraphs t page_num)
     = map (fun i => py "Section " ++ str_of_nat i)
           (seq 1 (length (_split_by_paragraphs t page_num)))
  /\ Forall (fun s => document s = py "placeholder"
                      /\ page_number s = page_num
                      /\ strip (text s) = text s
                      /\ 100 < length (text s)
                      /\ relevance_score s = None /\ importance_rank s = None)
            (_split_by_paragraphs t page_num).
Proof.
  unfold _split_by_paragraphs. cbv zeta. unfold enumerate.
  set (kept := map strip (filter _ _)).
  assert (Hkept : Forall (fun x => strip x = x /\ 100 < length x) kept).
  { apply Forall_forall. intros x Hx. apply in_map_iff in Hx.
    destruct Hx as (p & <- & Hp). apply filter_In in Hp.
    split; [apply strip_idempotent | apply Nat.ltb_lt, (proj2 Hp)]. }
  rewrite length_map, enumerate_from_length, length_firstn.
  split; [lia|]. split.
  - rewrite map_enumerate_index
      with (h := fun i => py "Section " ++ str_of_nat (i + 1)).
    + rewrite length_firstn, <- seq_shift, map_map.
      apply map_ext. intros i. rewrite Nat.add_1_r. reflexivity.
    + reflexivity.
  - assert (H5 : Forall (fun x => strip x = x /\ 100 < length x) (firstn 5 kept)).
    { apply Forall_forall. intros x Hx. apply In_firstn in Hx.
      exact (proj1 (Forall_forall _ _) Hkept x Hx). }
    eapply Forall_map_enumerate; [|exact H5].
    intros i x (Hs & Hl). cbn. repeat split; assumption.
Qed.

End SplitFacts.

(** ** Extraction *)

Module ExtractorFacts.
Import Re Segmenter SegmenterSpec SegmenterFacts PyStrFacts NormalizeSpec
       NormalizeFacts Orchestrator ExtractorSpec.

Lemma split_into_sections_eq (raw : pystr) (page_num : nat) :
  _split_into_sections raw page_num =
  if 100 <? length (normalize raw)
  then [placeholder page_num (py "Section 1") (normalize raw)]
  else [].
Proof.
  unfold _split_into_sections. cbv zeta. rewrite boundaries_of_normalized.
  rewrite paragraphs_nl_free by apply normalize_nl_free.
  rewrite normalize_stripped. reflexivity.
Qed.

Lemma short_page_no_sections (t : pystr) (page_num : nat) :
  negb (length t =? 0) && (50 <? length (strip t)) = false ->
  _split_into_sections t page_num = [].
Proof.
  intros H. rewrite split_into_sections_eq.
  assert (L : length (strip t) <= 50).
  { apply andb_false_iff in H. destruct H as [H|H].
    - apply negb_false_iff, Nat.eqb_eq in H. destruct t; [|discriminate].
      simpl. lia.
    - apply Nat.ltb_ge in H. exact H. }
  pose proof (normalize_le_strip t).
  destruct (100 <? length (normalize t)) eqn:E; [|reflexivity].
  apply Nat.ltb_lt in E. lia.
Qed.

Section WithCollaborators.
Context {C : Collaborators}.

Lemma extract_pages (pdf_path : pystr) :
  extract_text_from_pdf pdf_path =
  flat_map (fun '(page_num, page) => page_section (basename pdf_path) page_num page)
           (enumerate_from 1 (pdf_pages pdf_path)).
Proof.
  unfold extract_text_from_pdf. apply flat_map_ext. intros [k page].
  destruct page as [t|]; [|reflexivity]. unfold page_section.
  destruct (negb (length t =? 0) && (50 <? length (strip t))) eqn:E.
  - rewrite split_into_sections_eq.
    destruct (100 <? length (normalize t)); reflexivity.
  - pose proof (short_page_no_sections t k E) as H.
    rewrite split_into_sections_eq in H.
    destruct (100 <? length (normalize t)); [discriminate | reflexivity].
Qed.

Lemma page_sections_shape (doc : pystr) (pages : list (option pystr)) :
  forall k,
    let out := flat_map (fun '(page_num, page) => page_section doc page_num page)
                        (enumerate_from k pages) in
    Forall (fun s =>
              document s = doc
              /\ section_title s = py "Section 1"
              /\ k <= page_number s
              /\ (exists t, nth_error pages (page_number s - k) = Some (Some t)
                            /\ text s = normalize t)
              /\ 100 < length (text s)
              /\ relevance_score s = None /\ importance_rank s = None) out
    /\ StronglySorted lt (map page_number out)
    /\ length out <= length pages.
Proof.
  induction pages as [|page pages IH]; intros k; cbv zeta.
  { repeat split; constructor. }
  cbn [enumerate_from flat_map].
  destruct (IH (S k)) as (Hall & Hsorted & Hlen). cbv zeta in Hall, Hsorted, Hlen.
  set (rest := flat_map _ (enumerate_from (S k) pages)) in *.
  assert (Hall' : Forall (fun s =>
              document s = doc
              /\ section_title s = py "Section 1"
              /\ k <= page_number s
              /\ (exists t, nth_error (page :: pages) (page_number s - k)
                            = Some (Some t)
                            /\ text s = normalize t)
              /\ 100 < length (text s)
              /\ relevance_score s = None /\ importance_rank s = None) rest).
  { eapply Forall_impl; [|exact Hall].
    intros s (H1 & H2 & H3 & (t & H4 & H5) & H6 & H7 & H8).
    repeat split; try assumption; try lia.
    exists t. split; [|exact H5].
    replace (page_number s - k) with (S (page_number s - S k)) by lia.
    exact H4. }
  unfold page_section.
  destruct page as [t|]; [destruct (100 <? length (normalize t)) eqn:E|];
    cbn [app map length].
  - apply Nat.ltb_lt in E. split; [|split].
    + constructor; [|exact Hall'].
      cbn [document section_title page_number text relevance_score
           importance_rank].
      repeat split; try lia.
      exists t. rewrite Nat.sub_diag. split; reflexivity.
    + constructor; [exact Hsorted|].
      cbn [page_number]. apply Forall_forall. intros n Hn.
      apply in_map_iff in Hn. destruct Hn as (s & <- & Hs).
      pose proof (proj1 (Forall_forall _ _) Hall s Hs) as (_ & _ & Hk & _). lia.
    + lia.
  - repeat split; [exact Hall' | exact Hsorted | lia].
  - repeat split; [exact Hall' | exact Hsorted | lia].
Qed.

(** X5.  The 50-character page filter of [extract_text_from_pdf] never
    decides anything: the function returns, page by page and in page
    order, one section for each page whose normalized text is longer than
    100 characters and nothing for the other pages. *)
Theorem extract_one_section_per_long_page (pdf_path : pystr) :
  extract_text_from_pdf pdf_path =
  flat_map (fun '(page_num, page) => page_section (basename pdf_path) page_num page)
           (enumerate_from 1 (pdf_pages pdf_path)).
Proof. apply extract_pages. Qed.

Lemma extract_shape (pdf_path : pystr) :
  Forall (fun s =>
            from_page_of pdf_path (document s) (page_number s) (section_title s)
            /\ (exists t, nth_error (pdf_pages pdf_path) (page_number s - 1)
                          = Some (Some t)
                          /\ text s = normalize t)
            /\ 100 < length (text s)
            /\ relevance_score s = None /\ importance_rank s = None)
         (extract_text_from_pdf pdf_path)
  /\ StronglySorted lt (map page_number (extract_text_from_pdf pdf_path))
  /\ length (extract_text_from_pdf pdf_path) <= length (pdf_pages pdf_path).
Proof.
  rewrite extract_pages.
  destruct (page_sections_shape (basename pdf_path) (pdf_pages pdf_path) 1)
    as (Hall & Hsorted & Hlen).
  split; [|split; assumption].
  eapply Forall_impl; [|exact Hall].
  intros s (H1 & H2 & H3 & (t & H4 & H5) & H6 & H7 & H8).
  repeat split; try assumption.
  - exists t. split; [exact H4|]. rewrite <- H5. exact H6.
  - exists t. split; assumption.
Qed.

(** X6.  Every section that [extract_text_from_pdf] returns carries the
    file name of the PDF, the title "Section 1", the number of the page it
    was read from and that page's normalized text, longer than 100
    characters, and neither score nor rank; the pages of the sections
    increase strictly, so that no page gives two sections and no document
    gives more sections than it has pages. *)
Theorem extracted_sections_shape (pdf_path : pystr) :
  Forall (fun s =>
            document s = basename pdf_path
            /\ section_title s = py "Section 1"
            /\ 1 <= page_number s <= length (pdf_pages pdf_path)
            /\ (exists t, nth_error (pdf_pages pdf_path) (page_number s - 1)
                          = Some (Some t)
                          /\ text s = normalize t)
            /\ 100 < length (text s)
            /\ relevance_score s = None /\ importance_rank s = None)
         (extract_text_from_pdf pdf_path)
  /\ StronglySorted lt (map page_number (extract_text_from_pdf pdf_path))
  /\ length (extract_text_from_pdf pdf_path) <= length (pdf_pages pdf_path).
Proof.
  destruct (extract_shape pdf_path) as (Hall & Hsorted & Hlen).
  split; [|split; assumption].
  eapply Forall_impl; [|exact Hall].
  intros s ((H1 & H2 & H3 & _) & (t & H4 & H5) & H6 & H7 & H8).
  repeat split; try assumption.
  - assert (page_number s - 1 < length (pdf_pages pdf_path)).
    { apply nth_error_Some. rewrite H4. discriminate. }
    lia.
  - exists t. split; assumption.
Qed.

End WithCollaborators.
End ExtractorFacts.

(** ** The order and the sums of floats *)

Module FloatOrder.
Import SpecFloat.

Ltac cmp_cases :=
  repeat match goal with
         | |- context [Pos.compare_cont Eq ?a ?b] =>
             change (Pos.compare_cont Eq a b) with (Pos.compare a b)
         | H : context [Pos.compare_cont Eq ?a ?b] |- _ =>
             change (Pos.compare_cont Eq a b) with (Pos.compare a b) in H
         | |- context [Z.compare ?a ?b] => destruct (Z.compare_spec a b); subst
         | H : context [Z.compare ?a ?b] |- _ => destruct (Z.compare_spec a b); subst
         | |- context [Pos.compare ?a ?b] => destruct (Pos.compare_spec a b); subst
         | H : context [Pos.compare ?a ?b] |- _ => destruct (Pos.compare_spec a b); subst
         end.

Ltac order_cases :=
  cbn -[Z.compare Pos.compare] in *; cmp_cases;
  cbn -[Z.compare Pos.compare] in *;
  try reflexivity; try discriminate; try lia.

Lemma SFltb_negtrans (a b c : spec_float) :
  a <> S754_nan -> b <> S754_nan -> c <> S754_nan ->
  SFltb a b = false -> SFltb b c = false -> SFltb a c = false.
Proof.
  unfold SFltb, SFcompare.
  destruct a as [sa|sa| |sa ma ea], b as [sb|sb| |sb mb eb], c as [sc|sc| |sc mc ec];
    intros Ha Hb Hc; try congruence; clear Ha Hb Hc;
    try destruct sa; try destruct sb; try destruct sc;
    intros H1 H2; order_cases.
Qed.

Lemma SFltb_asym (a b : spec_float) :
  SFltb a b = true -> SFltb b a = false.
Proof.
  unfold SFltb, SFcompare.
  destruct a as [sa|sa| |sa ma ea], b as [sb|sb| |sb mb eb];
    try destruct sa; try destruct sb; intros H1; order_cases.
Qed.

Lemma not_nan_spec (x : float) : is_nan x = false -> Prim2SF x <> S754_nan.
Proof.
  unfold is_nan. rewrite FloatAxioms.eqb_spec. intros H E. rewrite E in H.
  discriminate.
Qed.

Lemma float_ltb_negtrans (x y z : float) :
  is_nan x = false -> is_nan y = false -> is_nan z = false ->
  (x <? y)%float = false -> (y <? z)%float = false -> (x <? z)%float = false.
Proof.
  rewrite !ltb_spec. intros Hx Hy Hz.
  apply SFltb_negtrans; apply not_nan_spec; assumption.
Qed.

Lemma float_ltb_asym (x y : float) :
  (x <? y)%float = true -> (y <? x)%float = false.
Proof. rewrite !ltb_spec. apply SFltb_asym. Qed.

End FloatOrder.

Module FloatSum.
Import SpecFloat FloatOrder.

Section Rounding.

Variables prec emax : Z.

Lemma shr_1_nonneg (mrs : shr_record) :
  (0 <= shr_m mrs)%Z -> (0 <= shr_m (shr_1 mrs))%Z.
Proof.
  destruct mrs as [m r s]. destruct m as [|p|p]; [| |simpl; lia];
    intros _; [|destruct p]; simpl; lia.
Qed.

Lemma iter_pos_keeps {A : Type} (P : A -> Prop) (f : A -> A) :
  (forall x, P x -> P (f x)) -> forall n x, P x -> P (iter_pos f n x).
Proof. intros Hf. induction n as [n IH|n IH|]; intros x Hx; simpl; auto. Qed.

Lemma shr_fexp_nonneg (m e : Z) (l : location) :
  (0 <= m)%Z -> (0 <= shr_m (fst (shr_fexp prec emax m e l)))%Z.
Proof.
  intros Hm. unfold shr_fexp, shr.
  assert (H0 : (0 <= shr_m (shr_record_of_loc m l))%Z)
    by (destruct l as [|[]]; exact Hm).
  destruct (fexp prec emax (Zdigits2 m + e) - e)%Z; try exact H0.
  cbn [fst]. apply (iter_pos_keeps (fun r => (0 <= shr_m r)%Z)); [|exact H0].
  apply shr_1_nonneg.
Qed.

Lemma round_nearest_even_nonneg (m : Z) (l : location) :
  (0 <= m)%Z -> (0 <= round_nearest_even m l)%Z.
Proof.
  intros Hm. destruct l as [|[]]; simpl; try destruct (Z.even m); lia.
Qed.

Lemma binary_round_aux_number (sx : bool) (m e : Z) (l : location) :
  (0 <= m)%Z -> binary_round_aux prec emax sx m e l <> S754_nan.
Proof.
  intros Hm. unfold binary_round_aux.
  pose proof (shr_fexp_nonneg m e l Hm) as H1.
  destruct (shr_fexp prec emax m e l) as [mrs' e']. cbn [fst] in H1.
  pose proof (shr_fexp_nonneg _ e' loc_Exact
                (round_nearest_even_nonneg _ (loc_of_shr_record mrs') H1)) as H2.
  destruct (shr_fexp prec emax _ e' loc_Exact) as [mrs'' e'']. cbn [fst] in H2.
  destruct (shr_m mrs'') as [|p|p]; [discriminate| |lia].
  destruct (e'' <=? emax - prec)%Z; discriminate.
Qed.

Lemma binary_normalize_number (m e : Z) (szero : bool) :
  binary_normalize prec emax m e szero <> S754_nan.
Proof.
  unfold binary_normalize, binary_round.
  destruct m as [|p|p]; [discriminate| |];
    destruct (shl_align _ _ _) as [mz ez]; apply binary_round_aux_number; lia.
Qed.

(** A sum is a number when both terms are and one of them is finite. *)
Lemma SFadd_number (x y : spec_float) :
  x <> S754_nan -> y <> S754_nan -> (forall s, y <> S754_infinity s) ->
  SFadd prec emax x y <> S754_nan.
Proof.
  intros Hx Hy Hi.
  destruct x as [sx|sx| |sx mx ex], y as [sy|sy| |sy my ey];
    try congruence; try (exfalso; exact (Hi sy eq_refl)); cbn [SFadd];
    try destruct sx; try destruct sy; try discriminate.
  all: apply binary_normalize_number.
Qed.

End Rounding.

Lemma number_spec (x : float) : Prim2SF x <> S754_nan -> is_nan x = false.
Proof.
  intros H. unfold is_nan. rewrite FloatAxioms.eqb_spec. unfold SFeqb, SFcompare.
  destruct (Prim2SF x) as [s|s| |s m e]; try congruence;
    try destruct s; try reflexivity;
    rewrite Z.compare_refl;
    change (Pos.compare_cont Eq m m) with (Pos.compare m m);
    rewrite Pos.compare_refl; reflexivity.
Qed.

(** Between two numbers: a number, and not an infinity. *)
Lemma bounded_finite (lo x hi : float) :
  (forall s, Prim2SF lo <> S754_infinity s) ->
  (forall s, Prim2SF hi <> S754_infinity s) ->
  (lo <=? x)%float = true -> (x <=? hi)%float = true ->
  Prim2SF x <> S754_nan /\ forall s, Prim2SF x <> S754_infinity s.
Proof.
  rewrite !leb_spec. unfold SFleb, SFcompare. intros Hlo Hhi.
  destruct (Prim2SF x) as [s|s| |s m e].
  - intros _ _. split; [discriminate | intros; discriminate].
  - destruct s.
    + destruct (Prim2SF lo) as [sl|sl| |sl ml el]; try discriminate;
        try destruct sl; try discriminate.
      exfalso. exact (Hlo true eq_refl).
    + intros _. destruct (Prim2SF hi) as [sh|sh| |sh mh eh]; try discriminate;
        try destruct sh; try discriminate.
      exfalso. exact (Hhi false eq_refl).
  - destruct (Prim2SF lo) as [sl|sl| |sl ml el]; discriminate.
  - intros _ _. split; [discriminate | intros; discriminate].
Qed.

Lemma float_add_number (x y lo hi : float) :
  (forall s, Prim2SF lo <> S754_infinity s) ->
  (forall s, Prim2SF hi <> S754_infinity s) ->
  (lo <=? y)%float = true -> (y <=? hi)%float = true ->
  is_nan x = false -> is_nan (x + y) = false.
Proof.
  intros Hlo Hhi H1 H2 Hx. apply number_spec. rewrite add_spec.
  destruct (bounded_finite lo y hi Hlo Hhi H1 H2) as [Hn Hi].
  apply SFadd_number; [apply not_nan_spec; exact Hx | exact Hn | exact Hi].
Qed.

End FloatSum.

(** ** Scores and the order of the ranking *)

Module ScoreFacts.

Import Ranker RankerSpec RankerFacts FloatOrder FloatSum ScoreSpec.

(** *** Bounds of the boost *)

Lemma hits_in_bound (terms : list pystr) (t : pystr) :
  hits_in terms t <= length terms.
Proof. unfold hits_in. apply List.filter_length_le. Qed.

Lemma boost_values_bounded :
  forallb (fun t => forallb (fun g => in_bounds (boost_value t g true)
                                       && in_bounds (boost_value t g false))
                            (seq 0 8))
          (seq 0 13) = true.
Proof. vm_compute. reflexivity. Qed.

Lemma boost_in_bounds (s : section) : in_bounds (boost_of s) = true.
Proof.
  rewrite boost_of_steps. cbv zeta.
  pose proof (hits_in_bound travel_boost_terms (text s)) as Ht.
  pose proof (hits_in_bound group_boost_terms (text s)) as Hg.
  change (length travel_boost_terms) with 12 in Ht.
  change (length group_boost_terms) with 7 in Hg.
  pose proof boost_values_bounded as H.
  rewrite forallb_forall in H.
  specialize (H (hits_in travel_boost_terms (text s))).
  rewrite forallb_forall in H.
  assert (Hb : in_bounds (boost_value (hits_in travel_boost_terms (text s))
                                      (hits_in group_boost_terms (text s)) true)
               && in_bounds (boost_value (hits_in travel_boost_terms (text s))
                                         (hits_in group_boost_terms (text s)) false)
               = true).
  { apply H; apply in_seq; lia. }
  apply andb_prop in Hb. destruct Hb as [H1 H2].
  unfold boost_value in H1, H2. cbv zeta in H1, H2.
  destruct (title_hit (section_title s)); assumption.
Qed.

(** X7.  The boost of a section is never negative and never more than
    1.7500000000000002, the sum that twelve additions of 0.1, seven of
    0.05 and one of 0.2 round to. *)
Theorem boost_bounds (s : section) :
  (0 <=? boost_of s)%float = true /\ (boost_of s <=? boost_max)%float = true.
Proof. apply andb_prop. exact (boost_in_bounds s). Qed.

(** A similarity that is a number gives a score that is a number. *)
Lemma boosted_number (base : float) (s : section) :
  is_nan base = false -> is_nan (base + boost_of s) = false.
Proof.
  pose proof (boost_in_bounds s) as H. apply andb_prop in H. destruct H as [H1 H2].
  apply (float_add_number base (boost_of s) 0 boost_max); try assumption.
  - intros b. vm_compute. discriminate.
  - intros b. vm_compute. discriminate.
Qed.

(** *** The order of the result *)

Lemma descending_sorted (l : list float) :
  descending l = true ->
  StronglySorted (fun x y => (x <? y)%float = false) l.
Proof.
  induction l as [|x l IH]; simpl; intros H; constructor.
  - apply IH. apply andb_prop in H. apply H.
  - apply andb_prop in H. destruct H as [H _].
    apply Forall_forall. intros y Hy.
    rewrite forallb_forall in H. specialize (H y Hy).
    apply negb_true_iff in H. exact H.
Qed.

Lemma sort_by_relevance_sorted (l : list section) :
  Forall has_score l -> StronglySorted not_above (sort_by_relevance l).
Proof.
  intros H. unfold sort_by_relevance.
  apply (stable_sort_sorted section
           (fun y x => (score_of x <? score_of y)%float) has_score).
  - intros x y _ _. apply float_ltb_asym.
  - intros x y z Hx Hy Hz H1 H2.
    apply float_ltb_negtrans with (y := score_of y); assumption.
  - exact H.
Qed.

Lemma fallback_scores (l : list section) :
  map score_of (fallback_ranks l) = map fallback_score (seq 0 (length l)).
Proof.
  unfold fallback_ranks, enumerate. apply map_enumerate_index. reflexivity.
Qed.

Lemma sorted_of_map {A B : Type} (f : A -> B) (Q : B -> B -> Prop) (l : list A) :
  StronglySorted Q (map f l) -> StronglySorted (fun a b => Q (f a) (f b)) l.
Proof.
  induction l as [|a l IH]; simpl; intros H; constructor;
    inversion H as [|? ? Hs Ha]; subst.
  - apply IH. exact Hs.
  - apply Forall_forall. intros b Hb.
    apply (proj1 (Forall_forall _ _) Ha). apply in_map. exact Hb.
Qed.

Lemma fallback_sorted (l : list section) :
  StronglySorted not_above (firstn 15 (fallback_ranks l)).
Proof.
  apply (sorted_of_map score_of (fun x y => (x <? y)%float = false)).
  rewrite map_firstn, fallback_scores.
  rewrite <- map_firstn, firstn_seq_min, Nat.min_comm, <- firstn_seq_min, map_firstn.
  apply sorted_firstn, descending_sorted. vm_compute. reflexivity.
Qed.

Lemma set_rank_annotated (score : float) (rank : nat) (s : section) :
  annotated (set_rank score rank s).
Proof. exists score, rank. split; reflexivity. Qed.

Section WithCollaborators.

Context {C : Collaborators}.

Lemma try_rank_scored (sections ranked : list section) (query : pystr) :
  try_rank sections query = Some ranked ->
  exists similarities scored,
    tfidf_similarities (map text sections ++ [query]) = Some similarities
    /\ score_sections similarities sections = Some scored
    /\ ranked = assign_ranks (sort_by_relevance scored).
Proof.
  unfold try_rank.
  destruct (tfidf_similarities _) as [sims|]; [|discriminate].
  destruct (score_sections sims sections) as [scored|] eqn:E; [|discriminate].
  intros H. inversion H. exists sims, scored. repeat split. exact E.
Qed.

Lemma score_sections_In (sims : list float) (l scored : list section) (x : section) :
  score_sections sims l = Some scored -> In x scored ->
  exists i s base,
    nth_error l i = Some s /\ nth_error sims i = Some base
    /\ x = set_rank (base + boost_of s)%float 0 s.
Proof.
  unfold score_sections, enumerate.
  assert (G : forall k scored,
             all_some (map (fun '(i, s) => score_section sims i s)
                           (enumerate_from k l)) = Some scored ->
             In x scored ->
             exists i s base,
               nth_error l i = Some s /\ nth_error sims (k + i) = Some base
               /\ x = set_rank (base + boost_of s)%float 0 s).
  { clear scored. induction l as [|s l IH]; intros k scored H Hx; simpl in H.
    - inversion H; subst. contradiction.
    - unfold score_section at 1 in H.
      destruct (nth_error sims k) as [base|] eqn:Eb; [|discriminate].
      destruct (all_some _) as [xs|] eqn:E; [|discriminate].
      inversion H; subst. destruct Hx as [<-|Hx].
      + exists 0, s, base. rewrite Nat.add_0_r. repeat split; assumption.
      + destruct (IH _ _ E Hx) as (i & s' & b & H1 & H2 & H3).
        exists (S i), s', b. rewrite Nat.add_succ_r. repeat split; assumption. }
  intros H Hx. destruct (G 0 scored H Hx) as (i & s & b & H1 & H2 & H3).
  exists i, s, b. repeat split; assumption.
Qed.

Lemma score_sections_enough (sims : list float) (l : list section) :
  length l <= length sims -> exists scored, score_sections sims l = Some scored.
Proof.
  unfold score_sections, enumerate.
  assert (G : forall k, k + length l <= length sims ->
                        exists scored,
                          all_some (map (fun '(i, s) => score_section sims i s)
                                        (enumerate_from k l)) = Some scored).
  { induction l as [|s l IH]; intros k Hk; simpl.
    - eexists. reflexivity.
    - unfold score_section at 1.
      destruct (nth_error sims k) as [base|] eqn:Eb.
      + destruct (IH (S k)) as (xs & ->); [simpl in Hk; lia|]. eexists. reflexivity.
      + apply nth_error_None in Eb. simpl in Hk. lia. }
  intros H. apply (G 0). simpl. exact H.
Qed.

Lemma scored_numbers (sims : list float) (l scored : list section) :
  Forall (fun x => is_nan x = false) sims ->
  score_sections sims l = Some scored -> Forall has_score scored.
Proof.
  intros Hsims Hs. apply Forall_forall. intros x Hx.
  destruct (score_sections_In _ _ _ _ Hs Hx) as (i & s & base & _ & Hb & ->).
  unfold has_score, score_of, set_rank. cbn [relevance_score].
  apply boosted_number.
  apply nth_error_In in Hb. exact (proj1 (Forall_forall _ _) Hsims base Hb).
Qed.

(** X8.  The ranked list is in the order of the scores, greatest first: no
    section stands behind one with a smaller score. This holds on the
    fallback path, and on the vectorization path when the similarities are
    numbers (no NaN among them). *)
Theorem ranked_by_score (sections : list section) (persona : persona_dict)
        (job_description : pystr) :
  (forall similarities,
      tfidf_similarities
        (map text sections ++ [build_query persona job_description])
      = Some similarities ->
      Forall (fun x => is_nan x = false) similarities) ->
  StronglySorted not_above
                 (rank_sections_by_relevance sections persona job_description).
Proof.
  intros Hnum. unfold rank_sections_by_relevance.
  destruct sections as [|s0 l]; [constructor|]. cbv zeta.
  destruct (try_rank (s0 :: l) (build_query persona job_description))
    as [ranked|] eqn:E; [|apply fallback_sorted].
  apply sorted_firstn.
  destruct (try_rank_scored _ _ _ E) as (sims & scored & Hsims & Hscored & ->).
  destruct (assign_ranks_keeps (sort_by_relevance scored)) as [_ Ek].
  apply (sorted_map_eq score_of (fun x y => (x <? y)%float = false)
                       (sort_by_relevance scored)); [symmetry; exact Ek|].
  apply sort_by_relevance_sorted.
  exact (scored_numbers _ _ _ (Hnum sims Hsims) Hscored).
Qed.

Lemma rank_content (sections : list section) (persona : persona_dict)
      (job_description : pystr) :
  exists rearranged,
    Permutation (map content sections) rearranged
    /\ map content (rank_sections_by_relevance sections persona job_description)
       = firstn 15 rearranged.
Proof.
  unfold rank_sections_by_relevance.
  destruct sections as [|s0 l].
  { exists []. split; [apply perm_nil | reflexivity]. }
  cbv zeta.
  destruct (try_rank (s0 :: l) (build_query persona job_description))
    as [ranked|] eqn:E.
  - destruct (try_rank_scored _ _ _ E) as (sims & scored & _ & Hs & ->).
    destruct (assign_ranks_keeps (sort_by_relevance scored)) as [Ec _].
    exists (map content (sort_by_relevance scored)). split.
    + rewrite <- (score_sections_content _ _ _ Hs).
      apply Permutation_map. unfold sort_by_relevance.
      apply stable_sort_permutation.
    + rewrite map_firstn, Ec. reflexivity.
  - exists (map content (s0 :: l)). split; [apply Permutation_refl|].
    rewrite map_firstn. f_equal. unfold fallback_ranks, enumerate.
    apply map_enumerate_keeps. reflexivity.
Qed.

Lemma rank_content_In (sections : list section) (persona : persona_dict)
      (job_description : pystr) (x : section) :
  In x (rank_sections_by_relevance sections persona job_description) ->
  exists s, In s sections /\ content x = content s.
Proof.
  intros Hx. destruct (rank_content sections persona job_description)
    as (rearranged & Hp & He).
  apply (in_map content) in Hx. rewrite He in Hx. apply In_firstn in Hx.
  apply (Permutation_in _ (Permutation_sym Hp)) in Hx.
  apply in_map_iff in Hx. destruct Hx as (s & Hs & Hin). eauto.
Qed.

Lemma rank_annotated (sections : list section) (persona : persona_dict)
      (job_description : pystr) :
  Forall annotated (rank_sections_by_relevance sections persona job_description).
Proof.
  unfold rank_sections_by_relevance.
  destruct sections as [|s0 l]; [constructor|].
  cbv zeta. apply Forall_forall. intros x Hx. apply In_firstn in Hx.
  revert x Hx. apply Forall_forall.
  destruct (try_rank (s0 :: l) (build_query persona job_description))
    as [ranked|] eqn:E.
  - destruct (try_rank_scored _ _ _ E) as (sims & scored & _ & Hs & ->).
    unfold assign_ranks, enumerate.
    apply enumerate_map_Forall. intros i x. apply set_rank_annotated.
  - unfold fallback_ranks, enumerate.
    apply enumerate_map_Forall. intros i x. apply set_rank_annotated.
Qed.

(** X9.  Ranking neither invents nor repeats nor alters a section: the
    documents, pages, titles and texts of the result are the first 15 of a
    rearrangement of those of the input, and every section of the result
    has a score and a rank. *)
Theorem rank_rearranges (sections : list section) (persona : persona_dict)
        (job_description : pystr) :
  (exists rearranged,
      Permutation (map content sections) rearranged
      /\ map content (rank_sections_by_relevance sections persona job_description)
         = firstn 15 rearranged)
  /\ Forall annotated
            (rank_sections_by_relevance sections persona job_description).
Proof. split; [apply rank_content | apply rank_annotated]. Qed.

(** X10.  When the vectorizer gives a similarity for every section, each
    section of the result is a section of the input with the score
    similarity + boost, the similarity being the one at the section's
    input position. *)
Theorem rank_scores (sections : list section) (persona : persona_dict)
        (job_description : pystr) (similarities : list float) :
  tfidf_similarities
    (map text sections ++ [build_query persona job_description])
  = Some similarities ->
  length sections <= length similarities ->
  Forall (fun x =>
            exists i s base,
              nth_error sections i = Some s
              /\ nth_error similarities i = Some base
              /\ content x = content s
              /\ relevance_score x = Some (base + boost_of s)%float)
         (rank_sections_by_relevance sections persona job_description).
Proof.
  intros Hsims Hlen. unfold rank_sections_by_relevance.
  destruct sections as [|s0 l]; [constructor|]. cbv zeta.
  unfold try_rank. rewrite Hsims.
  destruct (score_sections_enough similarities (s0 :: l) Hlen) as (scored & Hs).
  rewrite Hs.
  apply Forall_forall. intros x Hx. apply In_firstn in Hx.
  unfold assign_ranks, enumerate in Hx. apply in_map_iff in Hx.
  destruct Hx as ([i y] & <- & Hy).
  assert (Hin : In y (sort_by_relevance scored)).
  { clear - Hy. revert Hy. generalize 0. generalize (sort_by_relevance scored).
    intros l. induction l as [|a l IH]; intros k; simpl; [tauto|].
    intros [H|H]; [inversion H; left; reflexivity | right; exact (IH _ H)]. }
  unfold sort_by_relevance in Hin. apply stable_sort_In in Hin.
  destruct (score_sections_In _ _ _ _ Hs Hin) as (j & s & base & H1 & H2 & ->).
  exists j, s, base. repeat split; assumption.
Qed.

(** *** Determinism and ties *)

(** C8.  The ranking is a function of what segmentation put into the
    sections, of the persona and of the job description: fields left by an
    earlier ranking change nothing.  On the vectorization path the result
    is the list of scored sections, sorted, and every score is a number
    when the similarities are.  When every score is a number (none is
    NaN) the sort moves a section behind a later one only when the later
    one has a strictly greater score, so sections with equal scores keep
    their input order. *)
Theorem rank_deterministic_stable :
  (forall sections sections' persona job_description,
      map content sections = map content sections' ->
      rank_sections_by_relevance sections persona job_description
      = rank_sections_by_relevance sections' persona job_description)
  /\ (forall sections query ranked,
         try_rank sections query = Some ranked ->
         exists similarities scored,
           tfidf_similarities (map text sections ++ [query]) = Some similarities
           /\ score_sections similarities sections = Some scored
           /\ map content scored = map content sections
           /\ map content ranked = map content (sort_by_relevance scored)
           /\ map score_of ranked = map score_of (sort_by_relevance scored)
           /\ (Forall (fun x => is_nan x = false) similarities ->
               Forall has_score scored))
  /\ (forall l x y,
         Forall has_score l ->
         precedes x y l ->
         (score_of x <? score_of y)%float = false ->
         precedes x y (sort_by_relevance l))
  /\ (forall l x y,
         Forall has_score l ->
         precedes x y l ->
         score_of x = score_of y ->
         precedes x y (sort_by_relevance l)).
Proof.
  split; [|split; [|split]].
  - intros sections sections' persona job_description H.
    rewrite <- (rank_unranked sections), <- (rank_unranked sections').
    rewrite (unranked_content _ _ H). reflexivity.
  - intros sections query ranked H.
    destruct (try_rank_scored _ _ _ H) as (sims & scored & Hsims & Hscored & ->).
    exists sims, scored.
    destruct (assign_ranks_keeps (sort_by_relevance scored)) as [E1 E2].
    split; [exact Hsims|]. split; [exact Hscored|].
    split; [exact (score_sections_content _ _ _ Hscored)|].
    split; [exact E1|]. split; [exact E2|].
    intros Hnum. exact (scored_numbers _ _ _ Hnum Hscored).
  - intros l x y _ H Hxy. unfold sort_by_relevance.
    apply stable_sort_stable; assumption.
  - intros l x y _ H Hxy. unfold sort_by_relevance.
    apply stable_sort_stable; [exact H|].
    rewrite Hxy. apply float_ltb_irrefl.
Qed.

End WithCollaborators.

Lemma ranked_by_score_witness :
  StronglySorted not_above
    (rank_sections_by_relevance (C := zero_similarity)
                                [quiet_room; hotel_by_river; old_city] nobody []).
Proof.
  apply (ranked_by_score (C := zero_similarity)).
  intros similarities H. injection H as <-. repeat constructor.
Defined.

Lemma rank_scores_witness :
  Forall (fun x =>
            exists i s base,
              nth_error [quiet_room; hotel_by_river] i = Some s
              /\ nth_error [0%float; 0%float] i = Some base
              /\ content x = content s
              /\ relevance_score x = Some (base + boost_of s)%float)
         (rank_sections_by_relevance (C := zero_similarity)
                                     [quiet_room; hotel_by_river] nobody []).
Proof.
  apply (rank_scores (C := zero_similarity) [quiet_room; hotel_by_river] nobody []
                     [0%float; 0%float]).
  - reflexivity.
  - simpl. lia.
Defined.

(** Two sections with the score 0.1, the second with a rank left by an
    earlier ranking: the leftovers change nothing, and the first stays
    before the second. *)
Lemma rank_deterministic_stable_witness :
  rank_sections_by_relevance (C := zero_similarity)
                             [old_city; resting_place] nobody []
  = rank_sections_by_relevance (C := zero_similarity)
                               [unranked old_city; unranked resting_place] nobody []
  /\ precedes old_city resting_place
              (sort_by_relevance [old_city; resting_place]).
Proof.
  pose proof (rank_deterministic_stable (C := zero_similarity)) as (H1 & _ & _ & H4).
  split.
  - apply H1. reflexivity.
  - apply H4; [| |reflexivity].
    + repeat constructor.
    + apply precedes_here. left. reflexivity.
Defined.

End ScoreFacts.

(** ** Sentences and refined texts *)

Module SentenceFacts.
Import Re ReSpec ReFacts ReScanFacts Refiner RankerSpec RefinerSpec SentenceSpec.

Lemma wordb_same (st st' : mstate) : In st' (run Wordb st) -> st' = st.
Proof.
  simpl. destruct (xorb _ _); [|contradiction].
  intros [<-|[]]. reflexivity.
Qed.

Lemma run_cat (r1 r2 : regex) (st st' : mstate) :
  In st' (run (Cat r1 r2) st) ->
  exists st1, In st1 (run r1 st) /\ In st' (run r2 st1).
Proof. intros H. apply in_flat_map in H. exact H. Qed.

Lemma firstn_consumed {A : Type} (pre r : list A) :
  firstn (length (pre ++ r) - length r) (pre ++ r) = pre.
Proof.
  rewrite length_app. replace (length pre + length r - length r) with (length pre) by lia.
  rewrite firstn_app, Nat.sub_diag, firstn_all. simpl. apply app_nil_r.
Qed.

(** A match of the term pattern is made of at least four letters. *)
Lemma term_match (before : option ascii) (pos : nat) (s : pystr) (m : rmatch) :
  match_here term_pattern before pos s = Some m ->
  4 <= length (m_text m)
  /\ Forall (fun c => letter c = true) (m_text m)
  /\ exists r, s = m_text m ++ r.
Proof.
  unfold match_here.
  destruct (run term_pattern (MState before s None)) as [|st l] eqn:E; [discriminate|].
  intros H. inversion H. clear H H1. cbn [m_text].
  assert (Hin : In st (run term_pattern (MState before s None)))
    by (rewrite E; left; reflexivity).
  change term_pattern with (Cat Wordb (Cat (Rep letter 4 None) Wordb)) in Hin.
  apply run_cat in Hin. destruct Hin as (st0 & H0 & Hin).
  apply wordb_same in H0. subst st0.
  apply run_cat in Hin. destruct Hin as (st1 & H1 & H2).
  apply wordb_same in H2. subst st1.
  apply (run_rep_prefix letter 4 None) in H1.
  destruct H1 as (pre & Hpre & Hall & Hlen). cbn [rest] in Hpre.
  assert (Em : firstn (length s - length (rest st)) s = pre).
  { pose proof (firstn_consumed pre (rest st)) as F. rewrite <- Hpre in F. exact F. }
  rewrite Em.
  split; [exact Hlen|]. split; [exact Hall|]. exists (rest st). exact Hpre.
Qed.

Lemma lowered_letter (c : ascii) :
  implb (letter (lower_char c)) (between 97 122 (lower_char c)) = true.
Proof.
  destruct c as [[] [] [] [] [] [] [] []]; reflexivity.
Qed.

(** X11.  The key terms of a job description: no term twice, each of at
    least four characters, all of them letters a-z. *)
Theorem job_terms_wellformed (job_description : pystr) :
  NoDup (job_terms_of (lower job_description))
  /\ Forall (fun term => 4 <= length term
                        /\ Forall (fun c => lowercase_letter c = true) term)
            (job_terms_of (lower job_description)).
Proof.
  split; [apply NoDup_nodup|].
  apply Forall_forall. intros term Hterm.
  unfold job_terms_of in Hterm. apply nodup_In in Hterm.
  unfold findall, finditer in Hterm. apply in_map_iff in Hterm.
  destruct Hterm as (m & <- & Hm). apply hits_In in Hm.
  apply scan_hit in Hm. destruct Hm as (b & p & pre & s' & Hs & Hm).
  apply term_match in Hm. destruct Hm as (Hlen & Hall & r & Hr).
  split; [exact Hlen|].
  apply Forall_forall. intros c Hc.
  pose proof (proj1 (Forall_forall _ _) Hall c Hc) as Hletter.
  assert (Hin : In c (lower job_description)).
  { rewrite Hs, Hr. apply in_or_app. right. apply in_or_app. left. exact Hc. }
  unfold lower in Hin. apply in_map_iff in Hin. destruct Hin as (c0 & <- & _).
  pose proof (lowered_letter c0) as Himp. rewrite Hletter in Himp. exact Himp.
Qed.

(** *** Sentences *)

Lemma sentences_of_In (t x : pystr) :
  In x (sentences_of t) ->
  exists piece, In piece (Re.split sentence_end t)
                /\ x = strip piece /\ 20 < length x.
Proof.
  unfold sentences_of. intros H. apply in_map_iff in H.
  destruct H as (piece & <- & Hp). apply filter_In in Hp.
  destruct Hp as [Hp Hlen]. apply Nat.ltb_lt in Hlen. eauto.
Qed.

Lemma sentence_chars (t x : pystr) (c : ascii) :
  In x (sentences_of t) -> In c x -> terminator c = false.
Proof.
  intros Hx Hc. apply sentences_of_In in Hx.
  destruct Hx as (piece & Hp & -> & _). apply PyStrFacts.strip_incl in Hc.
  exact (split_plus_chars _ _ _ _ Hp Hc).
Qed.

(** X12.  Every sentence is longer than 20 characters, has no space at
    either end and no terminator inside. *)
Theorem sentences_wellformed (t : pystr) :
  Forall (fun x => 20 < length x
                   /\ strip x = x
                   /\ Forall (fun c => terminator c = false) x)
         (sentences_of t).
Proof.
  apply Forall_forall. intros x Hx.
  pose proof (sentences_of_In t x Hx) as (piece & Hp & -> & Hlen).
  split; [exact Hlen|]. split; [apply PyStrFacts.strip_idempotent|].
  apply Forall_forall. intros c Hc. exact (sentence_chars t _ c Hx Hc).
Qed.

(** *** The choice of sentences *)

Lemma scored_sorted (job_terms sentences : list pystr) :
  StronglySorted (fun a b => fst b <= fst a) (scored job_terms sentences).
Proof.
  unfold scored.
  pose proof (stable_sort_sorted (nat * pystr) (fun y x => fst x <? fst y)
                                 (fun _ => True)) as H.
  assert (Hs : StronglySorted (in_order (nat * pystr) (fun y x => fst x <? fst y))
                 (stable_sort (fun y x => fst x <? fst y)
                    (map (fun sentence => (sentence_score job_terms sentence, sentence))
                         sentences))).
  { apply H.
    - intros x y _ _ Hxy. apply Nat.ltb_lt in Hxy. apply Nat.ltb_ge. lia.
    - intros x y z _ _ _ H1 H2. apply Nat.ltb_ge in H1, H2. apply Nat.ltb_ge. lia.
    - apply Forall_forall. intros; exact I. }
  clear H. induction Hs as [|a l Hs IH Ha]; constructor; [exact IH|].
  apply Forall_forall. intros b Hb.
  pose proof (proj1 (Forall_forall _ _) Ha b Hb) as Hab.
  unfold in_order in Hab. apply Nat.ltb_ge in Hab. exact Hab.
Qed.

Lemma scored_permutation (job_terms sentences : list pystr) :
  Permutation sentences (map snd (scored job_terms sentences)).
Proof.
  unfold scored.
  eapply perm_trans; [|apply Permutation_map, stable_sort_permutation].
  rewrite map_map. simpl. rewrite map_id. apply Permutation_refl.
Qed.

Lemma scored_score (job_terms sentences : list pystr) (p : nat * pystr) :
  In p (scored job_terms sentences) -> fst p = sentence_score job_terms (snd p).
Proof.
  unfold scored. intros H. apply stable_sort_In in H.
  apply in_map_iff in H. destruct H as (s & <- & _). reflexivity.
Qed.

(** X13.  The refiner keeps min(3, n) of the n sentences of a section, in
    the order of their scores, greatest first; the sentences it leaves out
    score no more than any it keeps. *)
Theorem top_sentences_best (job_terms sentences : list pystr) :
  let top := top_sentences_of job_terms sentences in
  length top = Nat.min 3 (length sentences)
  /\ StronglySorted (fun a b => sentence_score job_terms b
                                <= sentence_score job_terms a) top
  /\ exists left_out,
       Permutation sentences (top ++ left_out)
       /\ Forall (fun a =>
                    Forall (fun b => sentence_score job_terms b
                                     <= sentence_score job_terms a) left_out)
                 top.
Proof.
  cbv zeta. rewrite RefinerFacts.top_sentences_no_fallback.
  fold (scored job_terms sentences).
  pose proof (scored_sorted job_terms sentences) as Hs.
  pose proof (scored_permutation job_terms sentences) as Hp.
  pose proof (scored_score job_terms sentences) as Hk.
  set (l := scored job_terms sentences) in *.
  split; [|split].
  - rewrite length_map, length_firstn.
    apply Permutation_length in Hp. rewrite length_map in Hp. lia.
  - pose proof (sorted_firstn _ 3 l Hs) as H3.
    assert (Hin : forall p, In p (firstn 3 l) -> In p l)
      by (intros p; apply In_firstn).
    induction H3 as [|a k H3 IH Ha]; simpl; constructor.
    + apply IH. intros p Hp'. apply Hin. right. exact Hp'.
    + apply Forall_forall. intros y Hy. apply in_map_iff in Hy.
      destruct Hy as (b & <- & Hb).
      rewrite <- (Hk a), <- (Hk b) by (apply Hin; simpl; auto).
      exact (proj1 (Forall_forall _ _) Ha b Hb).
  - exists (map snd (skipn 3 l)). split.
    + rewrite <- map_app, firstn_skipn. exact Hp.
    + apply Forall_forall. intros a Ha. apply Forall_forall. intros b Hb.
      apply in_map_iff in Ha, Hb.
      destruct Ha as (pa & <- & Ha). destruct Hb as (pb & <- & Hb).
      rewrite <- (Hk pa), <- (Hk pb).
      * exact (sorted_firstn_skipn _ 3 l Hs pa pb Ha Hb).
      * rewrite <- (firstn_skipn 3 l). apply in_or_app. right. exact Hb.
      * apply In_firstn in Ha. exact Ha.
Qed.

(** *** The refined text *)

Lemma terminate_ends (x : pystr) : endswith (py ".") (terminate x) = true.
Proof.
  unfold terminate. destruct (endswith (py ".") x) eqn:E; [exact E|].
  unfold endswith. rewrite rev_app_distr. reflexivity.
Qed.

Lemma terminate_nonempty (x : pystr) : 1 <= length (terminate x).
Proof.
  pose proof (terminate_ends x) as H. destruct (terminate x); [discriminate|].
  simpl. lia.
Qed.

(** X14.  For a job description that is a string and sections that all
    have a rank, the refiner returns one entry for each section, in order,
    with the section's document, page, title and rank, and a refined text
    that ends in a full stop; when a section has no rank it raises
    KeyError, and for a job description that is not a string it raises
    AttributeError, even when there is no section. *)
Theorem refine_sections_entries (sections : list section) :
  (forall t,
      Forall (fun s => importance_rank s <> None) sections ->
      exists out,
        refine_sections sections (JStr t) = Ok out
        /\ map (fun r => (r_document r, r_page_number r, r_section_title r,
                          r_importance_rank r)) out
           = map (fun s => (document s, page_number s, section_title s,
                            importance_rank s)) sections
        /\ Forall (fun r => endswith (py ".") (refined_text r) = true
                            /\ 1 <= length (refined_text r)) out)
  /\ (forall t,
         Exists (fun s => importance_rank s = None) sections ->
         refine_sections sections (JStr t)
         = Raise (KeyError (py "importance_rank")))
  /\ (forall v, match v with
                | JStr _ => True
                | _ => exists message,
                         refine_sections sections v = Raise (AttributeError message)
                end).
Proof.
  split; [|split].
  - intros t Hranked. eexists. split.
    + apply RefinerFacts.refine_sections_ranked.
      exact (proj1 (Forall_forall _ _) Hranked).
    + split.
      * rewrite map_map. reflexivity.
      * apply Forall_forall. intros r Hr. apply in_map_iff in Hr.
        destruct Hr as (s & <- & _). cbn [refined_text refine_section].
        split; [apply terminate_ends | apply terminate_nonempty].
  - intros t Hex. unfold refine_sections. cbn [lower_of bind].
    induction sections as [|s l IH]; [inversion Hex|].
    cbn [map collect]. unfold refine_entry at 1.
    destruct (importance_rank s) as [rank|] eqn:E; [|reflexivity].
    cbn [bind]. rewrite IH; [reflexivity|].
    inversion Hex as [? ? H|? ? H]; subst; [congruence | exact H].
  - intros v. destruct v; try exact I; eexists; reflexivity.
Qed.

Lemma refine_sections_entries_witness :
  (exists out,
      refine_sections [museum; harbour] (JStr (py "Plan a trip")) = Ok out
      /\ map (fun r => (r_document r, r_page_number r, r_section_title r,
                        r_importance_rank r)) out
         = map (fun s => (document s, page_number s, section_title s,
                          importance_rank s)) [museum; harbour]
      /\ Forall (fun r => endswith (py ".") (refined_text r) = true
                          /\ 1 <= length (refined_text r)) out)
  /\ refine_sections [museum; unranked harbour] (JStr (py "Plan a trip"))
     = Raise (KeyError (py "importance_rank")).
Proof.
  split.
  - apply (proj1 (refine_sections_entries [museum; harbour])).
    repeat constructor; discriminate.
  - apply (proj1 (proj2 (refine_sections_entries [museum; unranked harbour]))).
    right. left. reflexivity.
Defined.

Lemma join_chars (sep : pystr) (l : list pystr) (c : ascii) :
  In c (join sep l) -> In c sep \/ exists x, In x l /\ In c x.
Proof.
  induction l as [|x l IH]; simpl; [tauto|].
  destruct l as [|y l].
  - intros H. right. exists x. split; [left; reflexivity | exact H].
  - intros H. apply in_app_or in H. destruct H as [H|H].
    + right. exists x. split; [left; reflexivity | exact H].
    + apply in_app_or in H. destruct H as [H|H]; [left; exact H|].
      destruct (IH H) as [Hs|(z & Hz & Hc)]; [left; exact Hs|].
      right. exists z. split; [right; exact Hz | exact Hc].
Qed.

Lemma top_sentences_In (job_terms sentences : list pystr) (x : pystr) :
  In x (top_sentences_of job_terms sentences) -> In x sentences.
Proof.
  rewrite RefinerFacts.top_sentences_no_fallback. intros H.
  apply in_map_iff in H. destruct H as ([k y] & <- & H).
  apply In_firstn, stable_sort_In, in_map_iff in H.
  destruct H as (z & E & Hz). inversion E; subst. exact Hz.
Qed.

(** X15.  The refined text has neither an exclamation mark nor a question
    mark, whatever the section text holds: the sentences are cut at the
    terminators and joined again with full stops. *)
Theorem refined_text_marks (job_terms : list pystr) (s : section) :
  Forall (fun c => c <> "!"%char /\ c <> "?"%char)
         (refined_text (refine_section job_terms s)).
Proof.
  cbn [refined_text refine_section]. apply Forall_forall. intros c Hc.
  assert (Hj : In c (join (py ". ") (top_sentences_of job_terms
                                       (sentences_of (text s))))
               \/ c = "."%char).
  { unfold terminate in Hc. destruct (endswith _ _); [left; exact Hc|].
    apply in_app_or in Hc. destruct Hc as [Hc|[<-|[]]]; [left; exact Hc|].
    right. reflexivity. }
  destruct Hj as [Hj| ->]; [|split; discriminate].
  apply join_chars in Hj. destruct Hj as [Hs|(x & Hx & Hcx)].
  - destruct Hs as [<-|[<-|[]]]; split; discriminate.
  - apply top_sentences_In in Hx.
    pose proof (sentence_chars (text s) x c Hx Hcx) as Ht.
    split; intros ->; discriminate Ht.
Qed.

(** X16.  A section without a sentence longer than 20 characters is
    refined to a lone full stop: among sections that all have a rank, its
    entry has the refined text ".". *)
Theorem refine_without_sentence (sections : list section) (t : pystr)
        (i : nat) (s : section) :
  Forall (fun x => importance_rank x <> None) sections ->
  nth_error sections i = Some s ->
  Forall (fun piece => length (strip piece) <= 20)
         (Re.split sentence_end (text s)) ->
  exists out r,
    refine_sections sections (JStr t) = Ok out
    /\ nth_error out i = Some r
    /\ r_document r = document s
    /\ r_page_number r = page_number s
    /\ refined_text r = py ".".
Proof.
  intros Hranked Hs H.
  exists (map (refine_section (job_terms_of (lower t))) sections),
         (refine_section (job_terms_of (lower t)) s).
  split; [|split; [|split; [|split]]].
  - apply RefinerFacts.refine_sections_ranked.
    exact (proj1 (Forall_forall _ _) Hranked).
  - rewrite nth_error_map, Hs. reflexivity.
  - reflexivity.
  - reflexivity.
  - cbn [refined_text refine_section].
    assert (E : sentences_of (text s) = []).
    { unfold sentences_of.
      induction H as [|piece l Hp _ IH]; simpl; [reflexivity|].
      apply Nat.ltb_ge in Hp. rewrite Hp. exact IH. }
    rewrite E. reflexivity.
Qed.

Lemma refine_without_sentence_witness :
  exists out r,
    refine_sections [museum; caption] (JStr (py "Plan a trip")) = Ok out
    /\ nth_error out 1 = Some r
    /\ r_document r = py "guide.pdf"
    /\ r_page_number r = 2
    /\ refined_text r = py ".".
Proof.
  apply (refine_without_sentence [museum; caption] (py "Plan a trip") 1 caption).
  - repeat constructor; discriminate.
  - reflexivity.
  - vm_compute. repeat constructor.
Defined.

End SentenceFacts.

(** ** Paths and the pipeline *)

Module PathFacts.
Import Orchestrator.

Lemma last_component_plain (p : pystr) :
  forall cur, ~ In "/"%char p -> last_component p cur = rev cur ++ p.
Proof.
  induction p as [|c p IH]; intros cur H; cbn [last_component].
  - rewrite app_nil_r. reflexivity.
  - destruct (Ascii.eqb c "/") eqn:E.
    + apply Ascii.eqb_eq in E. subst c. exfalso. apply H. left. reflexivity.
    + rewrite IH by (intros Hin; apply H; right; exact Hin).
      simpl. rewrite <- app_assoc. reflexivity.
Qed.

Lemma last_component_after_slash (dir name : pystr) :
  forall cur, last_component (dir ++ "/"%char :: name) cur = last_component name [].
Proof.
  induction dir as [|c dir IH]; intros cur; cbn [app last_component].
  - reflexivity.
  - destruct (Ascii.eqb c "/"); apply IH.
Qed.

Lemma last_component_no_slash (p : pystr) :
  forall cur, ~ In "/"%char cur -> ~ In "/"%char (last_component p cur).
Proof.
  induction p as [|c p IH]; intros cur H; cbn [last_component].
  - rewrite <- in_rev. exact H.
  - destruct (Ascii.eqb c "/") eqn:E.
    + apply IH. intros [].
    + apply IH. intros [Hc|Hin]; [|exact (H Hin)].
      subst c. discriminate.
Qed.

(** X17.  The document label is the file name: what stands behind the last
    slash of the path, or the whole path when it has no slash. It never
    contains a slash, so two paths to files of the same name in different
    directories get the same label. *)
Theorem basename_file_name :
  (forall p, ~ In "/"%char (basename p))
  /\ (forall name, ~ In "/"%char name -> basename name = name)
  /\ (forall dir name,
         ~ In "/"%char name -> basename (dir ++ py "/" ++ name) = name).
Proof.
  split; [|split].
  - intros p. apply last_component_no_slash. intros [].
  - intros name H. unfold basename. rewrite last_component_plain by exact H.
    reflexivity.
  - intros dir name H. unfold basename. cbn [py app list_ascii_of_string].
    rewrite last_component_after_slash, last_component_plain by exact H.
    reflexivity.
Qed.

Lemma basename_file_name_witness :
  basename (py "input/docs/guide.pdf") = py "guide.pdf"
  /\ basename (py "archive/guide.pdf") = py "guide.pdf".
Proof.
  destruct basename_file_name as (_ & _ & H). split.
  - apply (H (py "input/docs") (py "guide.pdf")). vm_compute.
    intros F; repeat destruct F as [F|F]; try discriminate F; exact F.
  - apply (H (py "archive") (py "guide.pdf")). vm_compute.
    intros F; repeat destruct F as [F|F]; try discriminate F; exact F.
Defined.

End PathFacts.

Module PipelineFacts.
Import Ranker Refiner Orchestrator RankerSpec OrchestratorSpec Segmenter
       RankerFacts ScoreFacts SentenceFacts ExtractorSpec ExtractorFacts
       PipelineSpec
       ScoreSpec.

Section WithCollaborators.
Context {C : Collaborators}.

(** The three ways the [try] block ends. *)
Lemma run_pipeline_cases (cfg : config) :
  match read_job cfg with
  | Ok (JStr t, info) =>
      run_pipeline cfg = Ok (output_for (documents cfg) (persona cfg) t info)
  | Ok (_, _) => exists message, run_pipeline cfg = Raise (AttributeError message)
  | Raise e => run_pipeline cfg = Raise e
  end.
Proof.
  destruct (read_job cfg) as [[v info]|e] eqn:E.
  - destruct v; try (unfold run_pipeline; rewrite E;
                     cbn [refine_sections lower_of bind]; eexists; reflexivity).
    apply OrchestratorFacts.run_string_job. exact E.
  - unfold run_pipeline. rewrite E. reflexivity.
Qed.

Lemma process_cases (cfg : config) :
  (exists t info,
      read_job cfg = Ok (JStr t, info)
      /\ process_documents cfg
         = output_for (documents cfg) (persona cfg) t info)
  \/ (exists e,
         (forall t info, read_job cfg <> Ok (JStr t, info))
         /\ process_documents cfg = error_output e).
Proof.
  pose proof (run_pipeline_cases cfg) as H. unfold process_documents.
  destruct (read_job cfg) as [[v info]|e] eqn:E.
  - destruct v;
      try (right; destruct H as (message & ->);
           exists (AttributeError message); split;
           [intros t i; discriminate | reflexivity]).
    left. rewrite H. eauto.
  - right. rewrite H. exists e. split; [intros t i; discriminate | reflexivity].
Qed.

(** X18.  [process_documents] has two outcomes. When the job description
    resolves to a string the result is the regular one, without an error
    entry; in every other case (a job object without [task], an unresolved
    job object, a job that is a number, a list, ...) the result is the
    fixed error result: no input document, an empty persona and job, and
    no section at all. *)
Theorem process_outcomes (cfg : config) :
  match meta_error (process_documents cfg) with
  | None =>
      exists t info,
        read_job cfg = Ok (JStr t, info)
        /\ process_documents cfg
           = output_for (documents cfg) (persona cfg) t info
  | Some e =>
      (forall t info, read_job cfg <> Ok (JStr t, info))
      /\ process_documents cfg = error_output e
  end.
Proof.
  destruct (process_cases cfg) as [(t & info & Hr & ->)|(e & Hr & ->)];
    cbn [meta_error output_for error_output]; eauto.
Qed.

(** X19.  Documents that do not exist are skipped without an error: the
    result is the one for the configuration that lists only the existing
    documents, and when no listed document exists a string job still gives
    a regular result, with no document and no section. *)
Theorem missing_documents_skipped (cfg : config) :
  process_documents cfg = process_documents (existing_only cfg)
  /\ (forall t,
         job_to_be_done cfg = JStr t ->
         Forall (fun d => path_exists d = false) (documents cfg) ->
         let out := process_documents cfg in
         meta_error out = None
         /\ meta_input_documents out = []
         /\ meta_job_to_be_done out = JStr t
         /\ extracted_sections out = []
         /\ sub_section_analysis out = []).
Proof.
  split.
  - unfold process_documents, run_pipeline, existing_only, read_job.
    cbn [documents persona job_to_be_done challenge_info].
    rewrite filter_filter. reflexivity.
  - intros t Hjob Hnone. cbv zeta.
    unfold process_documents, run_pipeline, read_job.
    rewrite Hjob, (filter_none _ _ Hnone).
    destruct (challenge_info cfg); repeat split; reflexivity.
Qed.

Lemma output_for_aligned (docs : list pystr) (who : persona_dict) (t : pystr)
      (info : json) :
  let out := output_for docs who t info in
  map extracted_key (extracted_sections out)
  = map refined_key (sub_section_analysis out)
  /\ map e_importance_rank (extracted_sections out)
     = map Some (seq 1 (length (extracted_sections out)))
  /\ length (extracted_sections out) <= 15
  /\ length (extracted_sections out) <= length (all_sections_of docs).
Proof.
  cbv zeta. unfold output_for. cbv zeta.
  cbn [extracted_sections sub_section_analysis].
  rewrite !map_map, !length_map, rank_length.
  split; [reflexivity|]. split; [|lia].
  cbn [e_importance_rank].
  exact (rank_ranks (all_sections_of docs) who t).
Qed.

(** X20.  In every result the two section lists describe the same sections
    in the same order: entry by entry they agree on document, page, title
    and rank. The ranks are 1, 2, ... in list order and there are at most
    15 entries. *)
Theorem output_lists_aligned (cfg : config) :
  let out := process_documents cfg in
  map extracted_key (extracted_sections out)
  = map refined_key (sub_section_analysis out)
  /\ map e_importance_rank (extracted_sections out)
     = map Some (seq 1 (length (extracted_sections out)))
  /\ length (extracted_sections out) <= 15.
Proof.
  cbv zeta.
  destruct (process_cases cfg) as [(t & info & _ & ->)|(e & _ & ->)].
  - destruct (output_for_aligned (documents cfg) (persona cfg) t info)
      as (H1 & H2 & H3 & _).
    repeat split; assumption.
  - cbn. repeat split; lia.
Qed.

Lemma all_sections_origin (docs : list pystr) (s : section) :
  In s (all_sections_of docs) ->
  exists path,
    In path docs /\ path_exists path = true
    /\ from_page_of path (document s) (page_number s) (section_title s).
Proof.
  unfold all_sections_of. intros H. apply in_flat_map in H.
  destruct H as (path & Hp & Hs). apply filter_In in Hp.
  destruct Hp as (Hin & Hex). exists path. repeat split; try assumption.
  - pose proof (proj1 (extract_shape path)) as Hall.
    exact (proj1 (proj1 (proj1 (Forall_forall _ _) Hall s Hs))).
  - pose proof (proj1 (extract_shape path)) as Hall.
    exact (proj1 (proj2 (proj1 (proj1 (Forall_forall _ _) Hall s Hs)))).
  - pose proof (proj1 (extract_shape path)) as Hall.
    exact (proj1 (proj2 (proj2 (proj1 (proj1 (Forall_forall _ _) Hall s Hs))))).
  - pose proof (proj1 (extract_shape path)) as Hall.
    exact (proj2 (proj2 (proj2 (proj1 (proj1 (Forall_forall _ _) Hall s Hs))))).
Qed.

(** X21.  Every entry of [extracted_sections] can be traced to a page: it
    names a document of the configuration that exists and is listed in the
    metadata, by its file name, and a page of that document whose
    normalized text is longer than 100 characters; its title is "Section
    1". Every refined text of [sub_section_analysis] ends in a full stop. *)
Theorem output_sections_traceable (cfg : config) :
  let out := process_documents cfg in
  Forall (fun e =>
            In (e_document e) (meta_input_documents out)
            /\ exists path,
                 In path (documents cfg) /\ path_exists path = true
                 /\ from_page_of path (e_document e) (e_page_number e)
                                 (e_section_title e))
         (extracted_sections out)
  /\ Forall (fun r => endswith (py ".") (refined_text r) = true)
            (sub_section_analysis out).
Proof.
  cbv zeta.
  destruct (process_cases cfg) as [(t & info & _ & ->)|(e & _ & ->)];
    [|split; constructor].
  unfold output_for. cbv zeta.
  cbn [extracted_sections sub_section_analysis meta_input_documents].
  split.
  - apply Forall_forall. intros e He. apply in_map_iff in He.
    destruct He as (x & <- & Hx).
    cbn [e_document e_page_number e_section_title].
    destruct (rank_content_In _ _ _ _ Hx) as (s & Hs & Hc).
    unfold content in Hc. injection Hc as Hd Hp Ht _.
    rewrite Hd, Hp, Ht.
    destruct (all_sections_origin _ _ Hs) as (path & Hin & Hex & Hfrom).
    split; [|exists path; split; [|split]; assumption].
    destruct Hfrom as (-> & _). apply in_map. apply filter_In. split; assumption.
  - apply Forall_forall. intros r Hr. apply in_map_iff in Hr.
    destruct Hr as (s & <- & _). cbn [refined_text refine_section].
    apply terminate_ends.
Qed.

(** X22.  The title boost of line 175 is never given in the pipeline:
    every section that reaches the ranker is titled "Section 1", so its
    boost is made of the travel and group terms of its text alone. *)
Theorem title_boost_never_applies (docs : list pystr) (s : section) :
  In s (all_sections_of docs) ->
  title_hit (section_title s) = false
  /\ boost_of s = boost_value (hits_in travel_boost_terms (text s))
                              (hits_in group_boost_terms (text s)) false.
Proof.
  intros H. destruct (all_sections_origin docs s H) as (path & _ & _ & Hfrom).
  destruct Hfrom as (_ & Ht & _).
  assert (E : title_hit (section_title s) = false) by (rewrite Ht; reflexivity).
  split; [exact E|].
  rewrite boost_of_steps. cbv zeta. rewrite E. reflexivity.
Qed.

End WithCollaborators.

Lemma missing_documents_skipped_witness :
  extracted_sections
    (process_documents (C := raising)
       (mkConfig [py "docs/guide.pdf"] travel_planner
                 (JStr (py "Plan a trip")) None)) = []
  /\ meta_error
       (process_documents (C := raising)
          (mkConfig [py "docs/guide.pdf"] travel_planner
                    (JStr (py "Plan a trip")) None)) = None.
Proof.
  destruct (proj2 (missing_documents_skipped (C := raising)
                     (mkConfig [py "docs/guide.pdf"] travel_planner
                               (JStr (py "Plan a trip")) None))
                  (py "Plan a trip") eq_refl)
    as (H1 & _ & _ & H4 & _).
  - constructor; [reflexivity | constructor].
  - split; [exact H4 | exact H1].
Defined.

Lemma title_boost_never_applies_witness :
  title_hit (py "Section 1") = false
  /\ boost_of (mkSection (py "hotels.pdf") 2 (py "Section 1")
                         (normalize hotels_page) None None)
     = boost_value 2 0 false.
Proof.
  apply (title_boost_never_applies (C := two_guides)
           [py "docs/hotels.pdf"]
           (mkSection (py "hotels.pdf") 2 (py "Section 1")
                      (normalize hotels_page) None None)).
  vm_compute. left. reflexivity.
Defined.

(** The pipeline on two PDFs and a path that does not exist: the page of
    the hotel list has two boost terms and comes first. *)
Example harbour_trip_result :
  meta_input_documents (process_documents (C := two_guides) harbour_trip)
  = [py "guide.pdf"; py "hotels.pdf"]
  /\ meta_error (process_documents (C := two_guides) harbour_trip) = None
  /\ map extracted_key
         (extracted_sections (process_documents (C := two_guides) harbour_trip))
     = [(py "hotels.pdf", 2, py "Section 1", Some 1);
        (py "guide.pdf", 2, py "Section 1", Some 2)]
  /\ map refined_text
         (sub_section_analysis (process_documents (C := two_guides) harbour_trip))
     = [py "Hotels near the harbour are booked early in summer. The old town has small family hotels and a few restaurants that open late.";
        py "A trip to the lighthouse takes one afternoon. The harbour is busy in the early morning. Boats leave for the islands every hour."].
Proof. vm_compute. repeat split; reflexivity. Qed.

End PipelineFacts.
